(** * Forklore scoring engine: [06_compute_scores.py]

    A shallow embedding of the batch scoring script and the properties of
    its scoring, evidence rule, snippet selection and permalinks.

    Conventions of the embedding.
    - Python [int] is [Z]; a [datetime] is the number of microseconds since
      an arbitrary epoch, also a [Z], so that [timedelta.days] is a floor
      division.
    - Python [float] is idealised as a real number ([R]): [math.sqrt],
      [math.exp], [math.log], [+], [*], [/] and [round] are the exact
      mathematical operations, and [math.exp] raises [OverflowError]
      where its result leaves the range of doubles.  Rounding error and
      underflow of IEEE doubles are outside the model; integers are taken
      to lie within the range of doubles.
    - Exceptions are values of [PyResult]; the wall clock read by
      [datetime.now()] is an explicit stream of readings threaded through
      the [Run] monad. *)

From Stdlib Require Import ZArith List String Ascii Bool Lia.
From Stdlib Require Import Reals Lra Permutation Sorted.
Import ListNotations.

Local Open Scope string_scope.
Local Open Scope Z_scope.

(** ** Python values, exceptions and built-ins *)

Module Py.

(** The built-in exceptions the script can raise. *)
Inductive PyExn : Set :=
| ValueError          (* math domain error, max() of an empty sequence *)
| ZeroDivisionError   (* float division by zero *)
| OverflowError.      (* math range error *)

Inductive PyResult (A : Type) : Type :=
| Ok (a : A)
| Raise (e : PyExn).
Arguments Ok {A} a.
Arguments Raise {A} e.

Definition bind {A B} (r : PyResult A) (k : A -> PyResult B) : PyResult B :=
  match r with
  | Ok a => k a
  | Raise e => Raise e
  end.

(** [x / y] on floats. *)
Definition truediv (x y : R) : PyResult R :=
  if Req_dec_T y 0 then Raise ZeroDivisionError else Ok (x / y)%R.

(** [math.sqrt(n)] for an [int] argument. *)
Definition math_sqrt (n : Z) : PyResult R :=
  if n <? 0 then Raise ValueError else Ok (sqrt (IZR n)).

(** [math.log(2)]. *)
Definition math_log2 : R := ln 2.

(** [math.exp(x)] raises [OverflowError] when [x] is above the logarithm
    of the largest double, 709.782712893384 to twelve decimals. *)
Definition EXP_OVERFLOW : R := 709.782712893384%R.

Definition math_exp (x : R) : PyResult R :=
  if Rlt_dec EXP_OVERFLOW x then Raise OverflowError else Ok (exp x).

(** [min(a, b)] on floats. *)
Definition min (a b : R) : R := Rmin a b.

(** [round(x)] to the nearest integer, ties to the even one. *)
Definition round_half_even (x : R) : Z :=
  let f := Int_part x in
  let d := (x - IZR f)%R in
  if Rlt_dec d (1 / 2) then f
  else if Rlt_dec (1 / 2) d then f + 1
  else if Z.even f then f else f + 1.

(** [round(x, 2)]. *)
Definition round2 (x : R) : R :=
  (IZR (round_half_even (x * 100)) / 100)%R.

(** [max(seq)]: raises on an empty sequence. *)
Definition max (l : list Z) : PyResult Z :=
  match l with
  | [] => Raise ValueError
  | x :: xs => Ok (fold_left Z.max xs x)
  end.

(** [sum(seq)]. *)
Definition sum (l : list Z) : Z := fold_left Z.add l 0.

(** [len(s)] and [len(l)]. *)
Definition len_str (s : string) : Z := Z.of_nat (String.length s).
Definition len {A} (l : list A) : Z := Z.of_nat (List.length l).

(** [len(set(l))] for a list of strings. *)
Definition len_set (l : list string) : Z :=
  Z.of_nat (List.length (nodup string_dec l)).

(** [s[:n]]. *)
Definition slice_to (n : nat) (s : string) : string := substring 0 n s.

(** [s.replace(old, new)]: every non-overlapping occurrence of [old],
    scanning from the left, becomes [new].  [skip] counts the characters
    of a match that are still to be dropped. *)
Fixpoint replace_from (old new s : string) (skip : nat) : string :=
  match s with
  | EmptyString => EmptyString
  | String c s' =>
      match skip with
      | S k => replace_from old new s' k
      | O =>
          if prefix old s
          then (new ++ replace_from old new s' (String.length old - 1)%nat)%string
          else String c (replace_from old new s' 0)
      end
  end.

(** With an empty [old], Python puts [new] around every character. *)
Fixpoint intersperse (new s : string) : string :=
  match s with
  | EmptyString => new
  | String c s' => (new ++ String c (intersperse new s'))%string
  end.

Definition replace (s old new : string) : string :=
  match old with
  | EmptyString => intersperse new s
  | _ => replace_from old new s 0
  end.

(** [sorted(l, key=key, reverse=True)]: descending by key; the sort is
    stable, and with [reverse=True] elements of equal key still keep the
    order they had in [l]. *)
Section Sorted.
Context {A : Type} (key : A -> Z).

Fixpoint insert_desc (x : A) (l : list A) : list A :=
  match l with
  | [] => [x]
  | y :: l' =>
      if key x <? key y then y :: insert_desc x l' else x :: l
  end.

Fixpoint sorted_reverse (l : list A) : list A :=
  match l with
  | [] => []
  | x :: l' => insert_desc x (sorted_reverse l')
  end.
End Sorted.

(** Truthiness of an optional string: [None] and [''] are false. *)
Definition truthy (o : option string) : bool :=
  match o with
  | Some (String _ _) => true
  | _ => false
  end.

End Py.
Import Py.

Notation "x <- e ;; k" := (Py.bind e (fun x => k))
  (at level 61, e at next level, right associativity, only parsing).

(** ** Scoring parameters *)

Definition HALF_LIFE_DAYS : Z := 45.
Definition TRENDING_WINDOW_DAYS : Z := 90.
Definition MIN_THREADS : Z := 2.
Definition MIN_TOTAL_UPVOTES : Z := 10.

(** ** [recency_decay] and [mention_score] *)

Definition recency_decay (age_days half_life : R) : PyResult R :=
  k <- truediv math_log2 half_life ;;
  math_exp (- k * age_days).

Definition mention_score
  (comment_upvotes post_upvotes : Z) (age_days : R) (context_chars : Z)
  : PyResult R :=
  sc <- math_sqrt (comment_upvotes + 1) ;;
  sp <- math_sqrt (post_upvotes + 1) ;;
  let upvote_weight := (sc + 0.3 * sp)%R in
  decay <- recency_decay age_days (IZR HALF_LIFE_DAYS) ;;
  let context_boost := (1.0 + Py.min 0.3 (IZR context_chars / 10000))%R in
  Ok (upvote_weight * decay * context_boost)%R.

(** ** Data: mentions, snippets, aggregates *)

(** A [datetime], in microseconds, and the [.days] of a [timedelta]
    (normalised so that the remainder is non-negative: a floor division). *)
Definition datetime : Set := Z.
Definition MICROSECONDS_PER_DAY : Z := 86400000000.
Definition timedelta_days (delta : Z) : Z := delta / MICROSECONDS_PER_DAY.

(** The mention dictionaries.  ["comment_id"] may hold [None];
    ["post_upvotes"] may be absent (it is read with [.get(..., 0)]). *)
Module Mention.
Record t : Set := mk {
  subreddit : string;
  post_id : string;
  comment_id : option string;
  score : Z;
  post_upvotes : option Z;
  timestamp : datetime;
  snippet : string
}.
End Mention.

Module Snippet.
Record t : Set := mk {
  text : string;
  score : Z;
  permalink : string
}.
End Snippet.

Module Aggregate.
Record t : Type := mk {
  place_id : string;
  iconic_score : R;
  trending_score : R;
  mentions_90d : Z;
  unique_threads : Z;
  total_mentions : Z;
  total_upvotes : Z;
  last_seen : datetime;
  top_snippets : list Snippet.t
}.
End Aggregate.

(** [d.get(key, default)]. *)
Definition get_default {A} (o : option A) (default : A) : A :=
  match o with
  | Some v => v
  | None => default
  end.

(** ** The wall clock *)

(** The clock is the stream of instants that successive calls of
    [datetime.now()] return; a computation consumes readings from it. *)
Definition Clock : Set := nat -> datetime.
Definition Run (A : Type) : Type := Clock -> PyResult A * Clock.

Definition run_ret {A} (a : A) : Run A := fun c => (Ok a, c).

Definition run_bind {A B} (m : Run A) (k : A -> Run B) : Run B :=
  fun c =>
    match m c with
    | (Ok a, c') => k a c'
    | (Raise e, c') => (Raise e, c')
    end.

Definition run_lift {A} (r : PyResult A) : Run A := fun c => (r, c).

(** The clock after one reading. *)
Definition advance (c : Clock) : Clock := fun n => c (S n).

Definition datetime_now : Run datetime :=
  fun c => (Ok (c 0%nat), advance c).

Notation "x <~ e ;; k" := (run_bind e (fun x => k))
  (at level 61, e at next level, right associativity, only parsing).

(** ** [compute_restaurant_scores] *)

(** The body of the [for mention in mentions] loop, with the three
    accumulators [iconic_score], [trending_score], [mentions_90d]. *)
Fixpoint score_loop (now : datetime) (mentions : list Mention.t)
  (acc : R * R * Z) : PyResult (R * R * Z) :=
  match mentions with
  | [] => Ok acc
  | mention :: rest =>
      let '(iconic_score, trending_score, mentions_90d) := acc in
      let age_days := timedelta_days (now - Mention.timestamp mention) in
      let context_chars := len_str (Mention.snippet mention) in
      score <- mention_score
                 (Mention.score mention)
                 (get_default (Mention.post_upvotes mention) 0)
                 (IZR age_days)
                 context_chars ;;
      let iconic_score := (iconic_score + score)%R in
      if age_days <=? TRENDING_WINDOW_DAYS
      then score_loop now rest
             (iconic_score, (trending_score + score)%R, mentions_90d + 1)
      else score_loop now rest (iconic_score, trending_score, mentions_90d)
  end.

(** The f-string that builds a permalink. *)
Definition permalink_of (m : Mention.t) : string :=
  ("https://reddit.com/r/" ++ Mention.subreddit m ++ "/comments/"
     ++ replace (Mention.post_id m) "t3_" ""
     ++ (if truthy (Mention.comment_id m)
         then "/_/" ++ replace (get_default (Mention.comment_id m) "") "t1_" ""
         else ""))%string.

Definition snippet_of (m : Mention.t) : Snippet.t :=
  {| Snippet.text := slice_to 200 (Mention.snippet m);
     Snippet.score := Mention.score m;
     Snippet.permalink := permalink_of m |}.

Definition top_mentions (mentions : list Mention.t) : list Mention.t :=
  firstn 3 (sorted_reverse Mention.score mentions).

Definition top_snippets (mentions : list Mention.t) : list Snippet.t :=
  map snippet_of (top_mentions mentions).

Definition is_empty {A} (l : list A) : bool :=
  match l with
  | [] => true
  | _ => false
  end.

Definition compute_restaurant_scores
  (place_id : string) (mentions : list Mention.t)
  : Run (option Aggregate.t) :=
  if is_empty mentions then run_ret None
  else
    let unique_threads := len_set (map Mention.post_id mentions) in
    let total_upvotes := sum (map Mention.score mentions) in
    if (unique_threads <? MIN_THREADS) && (total_upvotes <? MIN_TOTAL_UPVOTES)
    then run_ret None
    else
      now <~ datetime_now ;;
      totals <~ run_lift (score_loop now mentions (0%R, 0%R, 0)) ;;
      let '(iconic_score, trending_score, mentions_90d) := totals in
      let top_snippets := top_snippets mentions in
      last_seen <~ run_lift (Py.max (map Mention.timestamp mentions)) ;;
      run_ret (Some
        {| Aggregate.place_id := place_id;
           Aggregate.iconic_score := round2 iconic_score;
           Aggregate.trending_score := round2 trending_score;
           Aggregate.mentions_90d := mentions_90d;
           Aggregate.unique_threads := unique_threads;
           Aggregate.total_mentions := len mentions;
           Aggregate.total_upvotes := total_upvotes;
           Aggregate.last_seen := last_seen;
           Aggregate.top_snippets := top_snippets |}).

(** ** [recompute_all_scores], without its database traffic *)

(** A row of the [SELECT]. *)
Module Row.
Record t : Set := mk {
  place_id : string;
  subreddit : string;
  post_id : string;
  comment_id : option string;
  score : Z;
  timestamp : datetime;
  snippet : string
}.
End Row.

Definition mention_of_row (row : Row.t) : Mention.t :=
  {| Mention.subreddit := Row.subreddit row;
     Mention.post_id := Row.post_id row;
     Mention.comment_id := Row.comment_id row;
     Mention.score := Row.score row;
     Mention.post_upvotes := None;
     Mention.timestamp := Row.timestamp row;
     Mention.snippet := Row.snippet row |}.

(** [mentions_by_place]: a dict keeps its keys in insertion order. *)
Definition Groups : Set := list (string * list Mention.t).

Fixpoint dict_append (d : Groups) (k : string) (m : Mention.t) : Groups :=
  match d with
  | [] => [(k, [m])]
  | (k', ms) :: d' =>
      if String.eqb k k' then (k', (ms ++ [m])%list) :: d'
      else (k', ms) :: dict_append d' k m
  end.

Definition group_by_place (rows : list Row.t) : Groups :=
  fold_left (fun d row => dict_append d (Row.place_id row) (mention_of_row row))
    rows [].

(** The loop over [mentions_by_place.items()]. *)
Fixpoint aggregate_groups (items : Groups) (aggregations : list Aggregate.t)
  : Run (list Aggregate.t) :=
  match items with
  | [] => run_ret aggregations
  | (place_id, mentions) :: rest =>
      agg <~ compute_restaurant_scores place_id mentions ;;
      match agg with
      | Some a => aggregate_groups rest (aggregations ++ [a])%list
      | None => aggregate_groups rest aggregations
      end
  end.

(** From the fetched [rows] to the [aggregations] that are inserted. *)
Definition recompute_all_scores (rows : list Row.t) : Run (list Aggregate.t) :=
  aggregate_groups (group_by_place rows) [].

(** ** The specification's formulas *)

(** §4.1: [exp(-ln(2) * ageDays / halfLifeDays)]. *)
Definition decay_spec (ageDays halfLifeDays : R) : R :=
  exp (- ln 2 * ageDays / halfLifeDays).

(** §4.2: the four steps of the mention scorer. *)
Definition score_spec (commentUpvotes postUpvotes : Z) (ageDays : R)
  (contextChars : Z) : R :=
  let upvoteWeight :=
    (sqrt (IZR commentUpvotes + 1) + 0.3 * sqrt (IZR postUpvotes + 1))%R in
  let decayFactor := decay_spec ageDays 45 in
  let contextBoost := (1.0 + Rmin 0.3 (IZR contextChars / 10000))%R in
  (upvoteWeight * decayFactor * contextBoost)%R.

(** Agreement to two decimal places. *)
Definition approx (x y : R) : Prop := (Rabs (x - y) <= 0.005)%R.

(** §4.3: the evidence filter. *)
Definition accept (uniqueThreadCount totalUpvotes : Z) : bool :=
  (2 <=? uniqueThreadCount) || (10 <=? totalUpvotes).

Definition uniqueThreadCount (mentions : list Mention.t) : Z :=
  len_set (map Mention.post_id mentions).

Definition totalUpvotes (mentions : list Mention.t) : Z :=
  sum (map Mention.score mentions).

(** The mentions [math.sqrt] can take: both upvote counts are at least -1.
    Every mention of the data model (counts at least 0) is one. *)
Definition scorable (m : Mention.t) : Prop :=
  -1 <= Mention.score m /\ -1 <= get_default (Mention.post_upvotes m) 0.

(** §7: the malformed mentions, at reference instant [now]. *)
Definition malformed (now : datetime) (m : Mention.t) : Prop :=
  timedelta_days (now - Mention.timestamp m) < 0
  \/ Mention.score m < 0
  \/ get_default (Mention.post_upvotes m) 0 < 0.

(** §4.4 step 7: higher upvote count first, and among equal counts the
    earlier timestamp first. *)
Definition ranks_before (m1 m2 : Mention.t) : Prop :=
  Mention.score m2 < Mention.score m1
  \/ (Mention.score m1 = Mention.score m2
      /\ Mention.timestamp m1 <= Mention.timestamp m2).

(** Descending order of a key, and descending upvote count. *)
Definition desc_by {A} (key : A -> Z) (a b : A) : Prop := key b <= key a.

Definition score_ge : Mention.t -> Mention.t -> Prop :=
  desc_by Mention.score.

Definition earlier (m1 m2 : Mention.t) : Prop :=
  Mention.timestamp m1 <= Mention.timestamp m2.

(** The mentions of [l] with upvote count [k], in the order of [l]. *)
Definition with_score (k : Z) (l : list Mention.t) : list Mention.t :=
  filter (fun m => Mention.score m =? k) l.

(** §6: stripping a type prefix, and the permalink built with it. *)
Definition strip_prefix (pre s : string) : string :=
  if prefix pre s
  then substring (String.length pre) (String.length s - String.length pre) s
  else s.

Definition permalink_spec (m : Mention.t) : string :=
  ("https://reddit.com/r/" ++ Mention.subreddit m ++ "/comments/"
     ++ strip_prefix "t3_" (Mention.post_id m)
     ++ match Mention.comment_id m with
        | Some c => "/_/" ++ strip_prefix "t1_" c
        | None => ""
        end)%string.

(** A three-character type prefix that ends in an underscore, as ["t3_"]
    and ["t1_"] are. *)
Definition marker (c1 c2 : ascii) : string := String c1 (String c2 "_").

(** A string without the character ['_'], as the base-36 body of a Reddit
    id is. *)
Fixpoint no_underscore (s : string) : bool :=
  match s with
  | EmptyString => true
  | String c s' => negb (Ascii.eqb c "_"%char) && no_underscore s'
  end.


(** ** Sample inputs *)

Definition mention_at (post comment : string) (ups : Z) (ts : datetime)
  : Mention.t :=
  {| Mention.subreddit := "FoodNYC";
     Mention.post_id := post;
     Mention.comment_id := Some comment;
     Mention.score := ups;
     Mention.post_upvotes := None;
     Mention.timestamp := ts;
     Mention.snippet := "Best slice in town" |}.

Definition day (n : Z) : datetime := n * MICROSECONDS_PER_DAY.

(** A clock that stands still at [t]. *)
Definition frozen (t : datetime) : Clock := fun _ => t.

(** A clock that advances one day per reading, from [t]. *)
Definition ticking (t : datetime) : Clock :=
  fun n => t + day (Z.of_nat n).

(** One thread, one mention with the given upvote count. *)
Definition single_thread (ups : Z) : list Mention.t :=
  [mention_at "t3_a" "t1_x" ups (day 0)].

(** Two threads, no upvotes. *)
Definition two_threads : list Mention.t :=
  [mention_at "t3_a" "t1_x" 0 (day 0); mention_at "t3_b" "t1_y" 0 (day 0)].

(** Two threads whose mentions are dated day 10, one of them with upvote
    count -1; read at day 3 they lie seven days in the future. *)
Definition future_group : list Mention.t :=
  [mention_at "t3_a" "t1_x" (-1) (day 10); mention_at "t3_b" "t1_y" 4 (day 10)].

(** One thread with an upvote count outside the domain of the square
    root, accepted on the strength of the other mention. *)
Definition downvoted_group : list Mention.t :=
  [mention_at "t3_a" "t1_x" 20 (day 0); mention_at "t3_a" "t1_y" (-5) (day 0)].

(** Equal upvote counts, the later mention first in the input. *)
Definition tie_group : list Mention.t :=
  [mention_at "t3_a" "t1_x" 20 (day 2); mention_at "t3_a" "t1_y" 20 (day 1)].

(** Upvotes [5, 20, 3, 20] at timestamps [t1], [t2], [t3], [t4]. *)
Definition ranked_example (t1 t2 t3 t4 : datetime) : list Mention.t :=
  [mention_at "t3_a" "t1_w" 5 t1; mention_at "t3_b" "t1_x" 20 t2;
   mention_at "t3_c" "t1_y" 3 t3; mention_at "t3_d" "t1_z" 20 t4].

(** A thread id that holds the marker a second time. *)
Definition odd_id_mention : Mention.t :=
  mention_at "t3_xt3_y" "t1_c" 1 (day 0).

(** Rows of two places, the second with too little evidence. *)
Definition sample_rows : list Row.t :=
  [Row.mk "place-1" "FoodNYC" "t3_a" (Some "t1_x") 12 (day 1) "Great pizza";
   Row.mk "place-2" "FoodNYC" "t3_b" None 3 (day 2) "Decent bagels";
   Row.mk "place-1" "AskNYC" "t3_c" (Some "t1_y") 4 (day 5) "Still great"].

(** ** Vocabulary for the properties of the aggregates and of the batch *)

(** The age in whole days that the loop computes for a mention, whether the
    mention falls in the trending window, and its score. *)
Definition age_days_at (now : datetime) (m : Mention.t) : Z :=
  timedelta_days (now - Mention.timestamp m).

Definition in_window (now : datetime) (m : Mention.t) : bool :=
  age_days_at now m <=? TRENDING_WINDOW_DAYS.

Definition score_at (now : datetime) (m : Mention.t) : R :=
  score_spec (Mention.score m) (get_default (Mention.post_upvotes m) 0)
    (IZR (age_days_at now m)) (len_str (Mention.snippet m)).

(** The ages at which [math.exp] overflows inside [recency_decay]: for a
    positive half-life they are negative, the ages of timestamps far in
    the future. *)
Definition overflows (ageDays halfLifeDays : R) : Prop :=
  (EXP_OVERFLOW < - (ln 2 / halfLifeDays) * ageDays)%R.

(** The mentions that [mention_score] scores at the reading [now]: the
    upvote counts are in the domain of [math.sqrt] and the age is not one
    at which [math.exp] overflows. *)
Definition scorable_at (now : datetime) (m : Mention.t) : Prop :=
  scorable m /\ ~ overflows (IZR (age_days_at now m)) 45.

(** The exception that a mention makes [mention_score] raise: the square
    roots are taken before the exponential. *)
Definition fault_at (now : datetime) (m : Mention.t) (e : PyExn) : Prop :=
  (e = ValueError /\ ~ scorable m)
  \/ (e = OverflowError /\ scorable m
      /\ overflows (IZR (age_days_at now m)) 45).

(** A sum of floats taken from the left, as [+=] in a loop takes it. *)
Definition total (l : list R) : R := fold_left Rplus l 0%R.

(** The evidence rule on a group. *)
Definition accepted (mentions : list Mention.t) : bool :=
  accept (uniqueThreadCount mentions) (totalUpvotes mentions).

(** [d.get(k)] on the grouping dict, and the rows of one place. *)
Fixpoint dict_get (d : Groups) (k : string) : option (list Mention.t) :=
  match d with
  | [] => None
  | (k', ms) :: d' => if String.eqb k k' then Some ms else dict_get d' k
  end.

Definition rows_of (k : string) (rows : list Row.t) : list Row.t :=
  filter (fun row => String.eqb (Row.place_id row) k) rows.

(** The distinct elements of a list, each at its first occurrence. *)
Fixpoint first_seen (l : list string) : list string :=
  match l with
  | [] => []
  | x :: l' => x :: filter (fun y => negb (String.eqb y x)) (first_seen l')
  end.

(** The clock after [n] readings. *)
Definition later (n : nat) (c : Clock) : Clock := fun k => c (n + k)%nat.

(** A group that holds a mention outside the domain of the scorer and
    that the evidence rule accepts. *)
Definition poisoned (g : string * list Mention.t) : Prop :=
  accepted (snd g) = true /\ Exists (fun m => ~ scorable m) (snd g).

(** Every group that the evidence rule accepts can be scored at its own
    reading of the clock: the [j]-th accepted group at reading [j]. *)
Definition all_scored (c : Clock) (items : Groups) : Prop :=
  forall j g,
    nth_error (filter (fun g => accepted (snd g)) items) j = Some g ->
    Forall (scorable_at (c j)) (snd g).

(** Rows of three places; the second place has one downvoted mention and
    enough upvotes to be accepted. *)
Definition poisoned_rows : list Row.t :=
  [Row.mk "place-1" "FoodNYC" "t3_a" (Some "t1_x") 12 (day 1) "Great pizza";
   Row.mk "place-2" "FoodNYC" "t3_b" (Some "t1_y") 30 (day 2) "Loved it";
   Row.mk "place-2" "FoodNYC" "t3_b" (Some "t1_z") (-6) (day 2) "Overrated";
   Row.mk "place-3" "AskNYC" "t3_c" None 50 (day 3) "A classic"].

(** A group with one mention inside the trending window and one outside,
    read at day 100. *)
Definition mixed_ages : list Mention.t :=
  [mention_at "t3_a" "t1_x" 8 (day 95); mention_at "t3_b" "t1_y" 3 (day 2)].

(** Two accepted places; the mention of the second is dated day 0. *)
Definition drifting_rows : list Row.t :=
  [Row.mk "place-1" "FoodNYC" "t3_a" (Some "t1_x") 12 (day 80) "Great pizza";
   Row.mk "place-2" "FoodNYC" "t3_b" (Some "t1_y") 15 (day 0) "Loved it"].

(** One thread; the first mention is dated 100000 days after day 0, the
    second has an upvote count outside the domain of the square root. *)
Definition far_future_group : list Mention.t :=
  [mention_at "t3_a" "t1_x" 20 (day 100000);
   mention_at "t3_a" "t1_y" (-5) (day 0)].


(** ** Facts about the numeric built-ins *)

Section Numeric.
Local Open Scope R_scope.

Lemma truediv_ok (x y : R) : y <> 0 -> truediv x y = Ok (x / y).
Proof.
  intros Hy. unfold truediv.
  destruct (Req_dec_T y 0) as [E | _]; [contradiction | reflexivity].
Qed.

Lemma math_exp_ok (x : R) : x <= EXP_OVERFLOW -> math_exp x = Ok (exp x).
Proof.
  intros Hx. unfold math_exp.
  destruct (Rlt_dec EXP_OVERFLOW x); [lra | reflexivity].
Qed.

Lemma math_exp_raise (x : R) :
  EXP_OVERFLOW < x -> math_exp x = Raise OverflowError.
Proof.
  intros Hx. unfold math_exp.
  destruct (Rlt_dec EXP_OVERFLOW x); [reflexivity | contradiction].
Qed.

Lemma overflows_dec (a h : R) : {overflows a h} + {~ overflows a h}.
Proof. unfold overflows. apply Rlt_dec. Qed.

Lemma recency_decay_ok (a h : R) :
  h <> 0 -> ~ overflows a h ->
  recency_decay a h = Ok (exp (- (ln 2 / h) * a)).
Proof.
  intros Hh Hno. unfold recency_decay, math_log2.
  rewrite truediv_ok by assumption. cbn [Py.bind].
  apply math_exp_ok. unfold overflows in Hno. lra.
Qed.

Lemma recency_decay_overflow (a h : R) :
  h <> 0 -> overflows a h -> recency_decay a h = Raise OverflowError.
Proof.
  intros Hh Hov. unfold recency_decay, math_log2.
  rewrite truediv_ok by assumption. cbn [Py.bind].
  apply math_exp_raise. exact Hov.
Qed.

Lemma decay_spec_eq (a h : R) : decay_spec a h = exp (- (ln 2 / h) * a).
Proof. unfold decay_spec. f_equal. unfold Rdiv. ring. Qed.

Lemma decay_spec_pos (a h : R) : 0 < decay_spec a h.
Proof. apply exp_pos. Qed.

Lemma ln2_pos : 0 < ln 2.
Proof. pose proof ln_lt_2. lra. Qed.

Lemma ln2_lt_1 : ln 2 < 1.
Proof.
  rewrite <- (ln_exp 1). apply ln_increasing; [lra | ].
  pose proof (exp_ineq1 1). lra.
Qed.

Lemma EXP_OVERFLOW_pos : 0 < EXP_OVERFLOW.
Proof. unfold EXP_OVERFLOW. lra. Qed.

(** No age from the past overflows, and a greater age overflows no
    sooner than a smaller one. *)
Lemma no_overflow_later (a a' h : R) :
  0 < h -> a <= a' -> ~ overflows a h -> ~ overflows a' h.
Proof.
  intros Hh Ha Hno Hov. apply Hno. unfold overflows in *.
  assert (Hk : 0 < ln 2 / h)
    by (apply Rdiv_lt_0_compat; [exact ln2_pos | exact Hh]).
  nra.
Qed.

Lemma no_overflow_nonneg (a h : R) : 0 < h -> 0 <= a -> ~ overflows a h.
Proof.
  intros Hh Ha Hov. unfold overflows in Hov.
  assert (Hk : 0 < ln 2 / h)
    by (apply Rdiv_lt_0_compat; [exact ln2_pos | exact Hh]).
  pose proof EXP_OVERFLOW_pos. nra.
Qed.

(** With the half-life of 45 days: no overflow up to 31000 days ahead,
    overflow from 64000 days ahead. *)
Lemma no_overflow_near (a : R) : -31000 <= a -> ~ overflows a 45.
Proof.
  intros Ha Hov. unfold overflows, EXP_OVERFLOW in Hov.
  pose proof ln2_lt_1. pose proof ln2_pos. nra.
Qed.

Lemma overflow_far (a : R) : a <= -64000 -> overflows a 45.
Proof.
  intros Ha. unfold overflows, EXP_OVERFLOW.
  pose proof ln_lt_2. nra.
Qed.

Lemma decay_spec_half (h : R) : h <> 0 -> decay_spec h h = 1 / 2.
Proof.
  intros Hh. unfold decay_spec.
  replace (- ln 2 * h / h) with (- ln 2) by (field; assumption).
  rewrite exp_Ropp, exp_ln by lra. lra.
Qed.

Lemma decay_spec_zero (h : R) : decay_spec 0 h = 1.
Proof.
  unfold decay_spec.
  replace (- ln 2 * 0 / h) with 0 by (unfold Rdiv; ring).
  apply exp_0.
Qed.

Lemma decay_spec_decreasing (h a1 a2 : R) :
  0 < h -> a1 < a2 -> decay_spec a2 h < decay_spec a1 h.
Proof.
  intros Hh Ha. unfold decay_spec. apply exp_increasing.
  pose proof ln2_pos as Hl.
  unfold Rdiv. apply Rmult_lt_compat_r.
  - apply Rinv_0_lt_compat; assumption.
  - nra.
Qed.

Lemma math_sqrt_ok (n : Z) : (0 <= n)%Z -> math_sqrt n = Ok (sqrt (IZR n)).
Proof.
  intros Hn. unfold math_sqrt.
  destruct (Z.ltb_spec n 0); [lia | reflexivity].
Qed.

Lemma math_sqrt_raise (n : Z) : (n < 0)%Z -> math_sqrt n = Raise ValueError.
Proof.
  intros Hn. unfold math_sqrt.
  destruct (Z.ltb_spec n 0); [reflexivity | lia].
Qed.

Lemma mention_score_ok (c p : Z) (a : R) (x : Z) :
  (-1 <= c)%Z -> (-1 <= p)%Z -> ~ overflows a 45 ->
  mention_score c p a x = Ok (score_spec c p a x).
Proof.
  intros Hc Hp Hno. unfold mention_score.
  rewrite !math_sqrt_ok by lia. cbn [Py.bind].
  unfold HALF_LIFE_DAYS. rewrite recency_decay_ok by (lra || exact Hno).
  cbn [Py.bind]. unfold score_spec, Py.min.
  rewrite decay_spec_eq, !plus_IZR. reflexivity.
Qed.

Lemma mention_score_overflow (c p : Z) (a : R) (x : Z) :
  (-1 <= c)%Z -> (-1 <= p)%Z -> overflows a 45 ->
  mention_score c p a x = Raise OverflowError.
Proof.
  intros Hc Hp Hov. unfold mention_score.
  rewrite !math_sqrt_ok by lia. cbn [Py.bind].
  unfold HALF_LIFE_DAYS. rewrite recency_decay_overflow by (lra || exact Hov).
  reflexivity.
Qed.

Lemma mention_score_raise (c p : Z) (a : R) (x : Z) :
  (c < -1)%Z \/ (p < -1)%Z -> mention_score c p a x = Raise ValueError.
Proof.
  intros H. unfold mention_score.
  destruct (Z.ltb_spec (c + 1) 0) as [Hc | Hc].
  - rewrite (math_sqrt_raise (c + 1)) by assumption. reflexivity.
  - rewrite (math_sqrt_ok (c + 1)) by assumption. cbn [Py.bind].
    rewrite (math_sqrt_raise (p + 1)) by lia. reflexivity.
Qed.

Lemma score_spec_nonneg (c p : Z) (a : R) (x : Z) :
  (0 <= x)%Z -> 0 <= score_spec c p a x.
Proof.
  intros Hx. unfold score_spec.
  pose proof (sqrt_pos (IZR c + 1)) as H1.
  pose proof (sqrt_pos (IZR p + 1)) as H2.
  pose proof (decay_spec_pos a 45) as H3.
  assert (H4 : 0 <= Rmin 0.3 (IZR x / 10000)).
  { apply Rmin_glb; [lra | ].
    apply IZR_le in Hx. unfold Rdiv. apply Rmult_le_pos; lra. }
  apply Rmult_le_pos; [apply Rmult_le_pos; lra | lra].
Qed.

(** [round] is monotone. *)
Lemma Int_part_le (x y : R) : x <= y -> (Int_part x <= Int_part y)%Z.
Proof.
  intros Hxy.
  destruct (base_Int_part x) as [Hx1 Hx2].
  destruct (base_Int_part y) as [Hy1 Hy2].
  assert (H : IZR (Int_part x) < IZR (Int_part y + 1)).
  { rewrite plus_IZR. lra. }
  apply lt_IZR in H. lia.
Qed.

Lemma round_half_even_bounds (x : R) :
  (Int_part x <= round_half_even x <= Int_part x + 1)%Z.
Proof.
  unfold round_half_even.
  destruct (Rlt_dec _ _); [lia | ].
  destruct (Rlt_dec _ _); [lia | ].
  destruct (Z.even _); lia.
Qed.

Lemma round_half_even_mono (x y : R) :
  x <= y -> (round_half_even x <= round_half_even y)%Z.
Proof.
  intros Hxy.
  pose proof (Int_part_le x y Hxy) as Hf.
  destruct (Z.eq_dec (Int_part x) (Int_part y)) as [E | NE].
  - unfold round_half_even. rewrite <- E.
    destruct (Rlt_dec (x - IZR (Int_part x)) (1 / 2)) as [Hx | Hx];
      destruct (Rlt_dec (y - IZR (Int_part x)) (1 / 2)) as [Hy | Hy];
      try lra;
      destruct (Rlt_dec (1 / 2) (x - IZR (Int_part x))) as [Hx' | Hx'];
      destruct (Rlt_dec (1 / 2) (y - IZR (Int_part x))) as [Hy' | Hy'];
      try lra; destruct (Z.even (Int_part x)); lia.
  - pose proof (round_half_even_bounds x). pose proof (round_half_even_bounds y).
    lia.
Qed.

Lemma round2_mono (x y : R) : x <= y -> round2 x <= round2 y.
Proof.
  intros Hxy. unfold round2.
  assert (H : (round_half_even (x * 100) <= round_half_even (y * 100))%Z)
    by (apply round_half_even_mono; lra).
  apply IZR_le in H. lra.
Qed.

(** Two-decimal bounds on the square root of ten. *)
Lemma sqrt10_bounds : 3.162 < sqrt 10 < 3.163.
Proof.
  assert (Hlo : sqrt (3.162 * 3.162) < sqrt 10) by (apply sqrt_lt_1; lra).
  assert (Hhi : sqrt 10 < sqrt (3.163 * 3.163)) by (apply sqrt_lt_1; lra).
  rewrite sqrt_square in Hlo, Hhi by lra. split; assumption.
Qed.

Lemma score_spec_fresh : score_spec 9 0 0 0 = sqrt 10 + 0.3.
Proof.
  unfold score_spec. rewrite decay_spec_zero.
  replace (IZR 9 + 1) with 10 by lra.
  replace (IZR 0 + 1) with 1 by lra.
  rewrite sqrt_1.
  replace (IZR 0 / 10000) with 0 by lra.
  rewrite Rmin_right by lra. lra.
Qed.

Lemma score_spec_half_life : score_spec 9 0 45 0 = (sqrt 10 + 0.3) / 2.
Proof.
  unfold score_spec. rewrite decay_spec_half by lra.
  replace (IZR 9 + 1) with 10 by lra.
  replace (IZR 0 + 1) with 1 by lra.
  rewrite sqrt_1.
  replace (IZR 0 / 10000) with 0 by lra.
  rewrite Rmin_right by lra. lra.
Qed.

End Numeric.

(** ** Facts about [sorted(..., reverse=True)] *)

Section SortedFacts.
Context {A : Type} (key : A -> Z).

Local Abbreviation desc := (desc_by key).

Lemma insert_desc_perm (x : A) (l : list A) :
  Permutation (insert_desc key x l) (x :: l).
Proof.
  induction l as [| y l IH]; cbn.
  - apply Permutation_refl.
  - destruct (key x <? key y).
    + apply perm_trans with (y :: x :: l).
      * apply perm_skip, IH.
      * apply perm_swap.
    + apply Permutation_refl.
Qed.

Lemma sorted_reverse_perm (l : list A) : Permutation (sorted_reverse key l) l.
Proof.
  induction l as [| x l IH]; cbn.
  - apply perm_nil.
  - apply perm_trans with (x :: sorted_reverse key l).
    + apply insert_desc_perm.
    + apply perm_skip, IH.
Qed.

Lemma insert_desc_sorted (x : A) (l : list A) :
  StronglySorted desc l -> StronglySorted desc (insert_desc key x l).
Proof.
  induction 1 as [| y l Hl IH Hy]; cbn.
  - constructor; constructor.
  - destruct (Z.ltb_spec (key x) (key y)) as [Hlt | Hge].
    + constructor; [exact IH | ].
      apply (Permutation_Forall (Permutation_sym (insert_desc_perm x l))).
      constructor; [unfold desc_by; lia | exact Hy].
    + constructor; [constructor; assumption | ].
      constructor; [exact Hge | ].
      eapply Forall_impl; [ | exact Hy].
      unfold desc_by. intros z Hz. lia.
Qed.

Lemma sorted_reverse_sorted (l : list A) :
  StronglySorted desc (sorted_reverse key l).
Proof.
  induction l as [| x l IH]; cbn.
  - constructor.
  - apply insert_desc_sorted, IH.
Qed.

(** Stability: an element never moves past one of the same key. *)
Lemma insert_desc_stable (k : Z) (x : A) (l : list A) :
  filter (fun a => key a =? k) (insert_desc key x l)
  = filter (fun a => key a =? k) (x :: l).
Proof.
  induction l as [| y l IH]; cbn.
  - reflexivity.
  - destruct (Z.ltb_spec (key x) (key y)) as [Hlt | Hge]; [ | reflexivity].
    cbn. rewrite IH. cbn.
    destruct (Z.eqb_spec (key x) k), (Z.eqb_spec (key y) k);
      try reflexivity; lia.
Qed.

Lemma sorted_reverse_stable (k : Z) (l : list A) :
  filter (fun a => key a =? k) (sorted_reverse key l)
  = filter (fun a => key a =? k) l.
Proof.
  induction l as [| x l IH]; cbn.
  - reflexivity.
  - rewrite insert_desc_stable. cbn. rewrite IH. reflexivity.
Qed.

End SortedFacts.

Lemma firstn_incl {A} (n : nat) (l : list A) (x : A) :
  In x (firstn n l) -> In x l.
Proof.
  revert l. induction n as [| n IH]; intros [| y l]; cbn; try tauto.
  intros [E | H]; [left; exact E | right; apply IH; exact H].
Qed.

Lemma StronglySorted_firstn {A} (R : A -> A -> Prop) (n : nat) (l : list A) :
  StronglySorted R l -> StronglySorted R (firstn n l).
Proof.
  intros H. revert n.
  induction H as [| x l Hl IH Hx]; intros [| n]; cbn; try constructor.
  - apply IH.
  - rewrite Forall_forall in *. intros y Hy. apply Hx.
    eapply firstn_incl. exact Hy.
Qed.

(** With the input in timestamp order, ties go to the earlier mention. *)
Lemma insert_desc_ranks (x : Mention.t) (l : list Mention.t) :
  StronglySorted ranks_before l ->
  Forall (earlier x) l ->
  StronglySorted ranks_before (insert_desc Mention.score x l).
Proof.
  induction 1 as [| y l Hl IH Hy]; intros Hx; cbn.
  - constructor; constructor.
  - inversion Hx as [| ? ? Hxy Hxl]; subst.
    destruct (Z.ltb_spec (Mention.score x) (Mention.score y)) as [Hlt | Hge].
    + constructor; [apply IH; assumption | ].
      apply (Permutation_Forall
               (Permutation_sym (insert_desc_perm Mention.score x l))).
      constructor; [left; exact Hlt | exact Hy].
    + constructor; [constructor; assumption | ].
      assert (Hrk : forall z, earlier x z ->
                Mention.score z <= Mention.score x -> ranks_before x z).
      { intros z Hez Hsz. unfold ranks_before, earlier in *.
        destruct (Z.eq_dec (Mention.score x) (Mention.score z)); [right | left];
          (split || idtac); lia. }
      constructor; [apply Hrk; assumption | ].
      rewrite Forall_forall in *. intros z Hz. apply Hrk; [auto | ].
      specialize (Hy z Hz). unfold ranks_before in Hy. lia.
Qed.

Lemma sorted_reverse_ranks (l : list Mention.t) :
  StronglySorted earlier l ->
  StronglySorted ranks_before (sorted_reverse Mention.score l).
Proof.
  induction 1 as [| x l Hl IH Hx]; cbn.
  - constructor.
  - apply insert_desc_ranks; [exact IH | ].
    apply (Permutation_Forall
             (Permutation_sym (sorted_reverse_perm Mention.score l))).
    exact Hx.
Qed.

(** ** Facts about [str.replace] and slices *)

Section StringFacts.
Variables c1 c2 : ascii.

Local Abbreviation marker := (marker c1 c2).

Lemma prefix_cons (a b : ascii) (s1 s2 : string) :
  prefix (String a s1) (String b s2)
  = if ascii_dec a b then prefix s1 s2 else false.
Proof. reflexivity. Qed.

Lemma prefix_marker_plain (s : string) :
  no_underscore s = true -> prefix marker s = false.
Proof.
  unfold marker.
  destruct s as [| a [| b [| c s]]]; intros H; rewrite ?prefix_cons;
    repeat (destruct (ascii_dec _ _) as [? | ?]; [ | reflexivity]);
    try reflexivity.
  match goal with E : "_"%char = c |- _ => rewrite <- E in H end.
  cbn [no_underscore] in H.
  rewrite Ascii.eqb_refl in H. cbn [negb andb] in H.
  rewrite !andb_false_r in H. discriminate H.
Qed.

Lemma no_underscore_tail (a : ascii) (s : string) :
  no_underscore (String a s) = true -> no_underscore s = true.
Proof. cbn. intros H. apply andb_true_iff in H. apply H. Qed.

Lemma replace_from_plain (new s : string) :
  no_underscore s = true -> replace_from marker new s 0 = s.
Proof.
  induction s as [| a s IH]; intros H.
  - reflexivity.
  - cbn [replace_from]. rewrite (prefix_marker_plain _ H).
    rewrite IH by (eapply no_underscore_tail; exact H). reflexivity.
Qed.

Lemma replace_plain (s : string) :
  no_underscore s = true -> replace s marker "" = s.
Proof. intros H. unfold replace, marker. apply replace_from_plain, H. Qed.






End StringFacts.


Lemma slice_to_length (n : nat) (s : string) :
  String.length (slice_to n s) = Nat.min n (String.length s).
Proof.
  unfold slice_to. revert s.
  induction n as [| n IH]; intros [| a s]; cbn; try reflexivity.
  rewrite IH. reflexivity.
Qed.

Lemma slice_to_prefix (n : nat) (s : string) : prefix (slice_to n s) s = true.
Proof.
  unfold slice_to. revert s.
  induction n as [| n IH]; intros [| a s]; cbn [substring];
    try reflexivity.
  rewrite prefix_cons. destruct (ascii_dec a a); [apply IH | congruence].
Qed.

(** The built-ins, run. *)
Example replace_runs :
  replace "t3_abc" "t3_" "" = "abc"
  /\ replace "aaa" "aa" "b" = "ba"
  /\ replace "abc" "" "-" = "-a-b-c-"
  /\ replace "xt3_t3_yt3" "t3_" "" = "xyt3".
Proof. repeat split; reflexivity. Qed.

Example timedelta_days_runs :
  timedelta_days (-1) = -1
  /\ timedelta_days (day 3 - day 10) = -7
  /\ timedelta_days (day 3 - 1) = 2.
Proof. repeat split; reflexivity. Qed.

Example sorted_reverse_runs :
  map Mention.score (sorted_reverse Mention.score (ranked_example 1 2 3 4))
  = [20; 20; 5; 3].
Proof. reflexivity. Qed.

Example group_by_place_runs :
  map (fun g => (fst g, map Mention.score (snd g))) (group_by_place sample_rows)
  = [("place-1", [12; 4]); ("place-2", [3])].
Proof. reflexivity. Qed.

(** ** Facts about the scoring loop and the evidence rule *)

Lemma evidence_rule (u t : Z) :
  (u <? MIN_THREADS) && (t <? MIN_TOTAL_UPVOTES) = negb (accept u t).
Proof.
  unfold accept, MIN_THREADS, MIN_TOTAL_UPVOTES.
  destruct (Z.ltb_spec u 2), (Z.ltb_spec t 10),
    (Z.leb_spec 2 u), (Z.leb_spec 10 t); try reflexivity; lia.
Qed.

Lemma len_str_nonneg (s : string) : 0 <= len_str s.
Proof. unfold len_str. lia. Qed.

Lemma scorable_dec (m : Mention.t) : {scorable m} + {~ scorable m}.
Proof.
  unfold scorable.
  destruct (Z_le_dec (-1) (Mention.score m)),
    (Z_le_dec (-1) (get_default (Mention.post_upvotes m) 0));
    [left | right | right | right]; lia.
Qed.

Lemma scorable_at_dec (now : datetime) (m : Mention.t) :
  {scorable_at now m} + {~ scorable_at now m}.
Proof.
  unfold scorable_at.
  destruct (scorable_dec m) as [Hs | Hs]; [ | right; tauto].
  destruct (overflows_dec (IZR (age_days_at now m)) 45) as [Ho | Ho];
    [right; tauto | left; tauto].
Qed.

Lemma fault_at_exists (now : datetime) (m : Mention.t) :
  ~ scorable_at now m -> exists e, fault_at now m e.
Proof.
  intros Hno. unfold fault_at.
  destruct (scorable_dec m) as [Hs | Hs].
  - exists OverflowError. right. split; [reflexivity | split; [exact Hs | ]].
    destruct (overflows_dec (IZR (age_days_at now m)) 45) as [Ho | Ho];
      [exact Ho | ].
    exfalso. apply Hno. split; assumption.
  - exists ValueError. left. split; [reflexivity | exact Hs].
Qed.

Lemma fault_at_kind (now : datetime) (m : Mention.t) (e : PyExn) :
  fault_at now m e -> e = ValueError \/ e = OverflowError.
Proof. intros [[-> _] | [-> _]]; [left | right]; reflexivity. Qed.

Lemma mention_score_fault (now : datetime) (m : Mention.t) (e : PyExn) :
  fault_at now m e ->
  mention_score (Mention.score m) (get_default (Mention.post_upvotes m) 0)
    (IZR (age_days_at now m)) (len_str (Mention.snippet m))
  = Raise e.
Proof.
  intros [[-> Hs] | (-> & [Hc Hp] & Ho)].
  - apply mention_score_raise. unfold scorable in Hs. lia.
  - apply mention_score_overflow; assumption.
Qed.

(** On mentions that can be scored the loop finishes, and what it adds
    to the trending total it also adds to the iconic total. *)
Lemma score_loop_scorable (now : datetime) (ms : list Mention.t) :
  Forall (scorable_at now) ms ->
  forall (i t : R) (n : Z),
  exists (i' t' : R) (n' : Z),
    score_loop now ms (i, t, n) = Ok (i', t', n')
    /\ (0 <= t' - t <= i' - i)%R.
Proof.
  induction 1 as [| m ms [[Hc Hp] Ho] Hms IH]; intros i t n.
  - exists i, t, n. split; [reflexivity | lra].
  - cbn [score_loop]. fold (age_days_at now m).
    rewrite mention_score_ok by assumption.
    cbn [Py.bind].
    set (s := score_spec _ _ _ _).
    assert (Hs : (0 <= s)%R) by (apply score_spec_nonneg, len_str_nonneg).
    destruct (_ <=? TRENDING_WINDOW_DAYS).
    + destruct (IH (i + s)%R (t + s)%R (n + 1)) as (i' & t' & n' & E & B).
      exists i', t', n'. split; [exact E | lra].
    + destruct (IH (i + s)%R t n) as (i' & t' & n' & E & B).
      exists i', t', n'. split; [exact E | lra].
Qed.

(** The first mention that cannot be scored stops the loop with its
    exception. *)
Lemma score_loop_fault (now : datetime) (good : list Mention.t)
  (bad : Mention.t) (rest : list Mention.t) (e : PyExn) :
  Forall (scorable_at now) good ->
  fault_at now bad e ->
  forall acc, score_loop now (good ++ bad :: rest) acc = Raise e.
Proof.
  intros Hgood Hbad.
  induction Hgood as [| m good [[Hc Hp] Ho] _ IH]; intros [[i t] n].
  - cbn [app score_loop]. fold (age_days_at now bad).
    rewrite (mention_score_fault now bad e Hbad). reflexivity.
  - cbn [app score_loop]. fold (age_days_at now m).
    rewrite mention_score_ok by assumption. cbn [Py.bind].
    destruct (_ <=? TRENDING_WINDOW_DAYS); apply IH.
Qed.

Lemma scorable_all_or_not (now : datetime) (ms : list Mention.t) :
  Forall (scorable_at now) ms
  \/ exists good bad rest,
       ms = (good ++ bad :: rest)%list
       /\ Forall (scorable_at now) good /\ ~ scorable_at now bad.
Proof.
  induction ms as [| m ms IH].
  - left. constructor.
  - destruct (scorable_at_dec now m) as [Hm | Hm].
    + destruct IH as [IH | (good & bad & rest & -> & Hg & Hb)].
      * left. constructor; assumption.
      * right. exists (m :: good), bad, rest.
        split; [reflexivity | split; [constructor; assumption | exact Hb]].
    + right. exists [], m, ms.
      split; [reflexivity | split; [constructor | exact Hm]].
Qed.

Lemma score_loop_unscorable (now : datetime) (ms : list Mention.t) :
  Exists (fun m => ~ scorable_at now m) ms ->
  forall acc,
  exists e, score_loop now ms acc = Raise e
            /\ (e = ValueError \/ e = OverflowError).
Proof.
  intros Hex acc.
  destruct (scorable_all_or_not now ms)
    as [Hall | (good & bad & rest & -> & Hg & Hb)].
  - exfalso. rewrite Forall_forall in Hall. rewrite Exists_exists in Hex.
    destruct Hex as (m & Hin & Hn). exact (Hn (Hall m Hin)).
  - destruct (fault_at_exists now bad Hb) as [e He].
    exists e. split; [apply score_loop_fault; assumption | ].
    exact (fault_at_kind now bad e He).
Qed.

(** ** The three outcomes of [compute_restaurant_scores] *)

Lemma compute_rejected (p : string) (ms : list Mention.t) (c : Clock) :
  accept (uniqueThreadCount ms) (totalUpvotes ms) = false ->
  compute_restaurant_scores p ms c = (Ok None, c).
Proof.
  intros Hrej. unfold compute_restaurant_scores.
  destruct ms as [| m ms]; [reflexivity | ].
  cbn [is_empty]. rewrite evidence_rule.
  fold (uniqueThreadCount (m :: ms)). fold (totalUpvotes (m :: ms)).
  rewrite Hrej. reflexivity.
Qed.

Lemma compute_accepted (p : string) (m : Mention.t) (ms : list Mention.t)
  (c : Clock) :
  accept (uniqueThreadCount (m :: ms)) (totalUpvotes (m :: ms)) = true ->
  compute_restaurant_scores p (m :: ms) c =
  (match score_loop (c 0%nat) (m :: ms) (0%R, 0%R, 0) with
   | Ok (iconic, trending, recent) =>
       Ok (Some
         {| Aggregate.place_id := p;
            Aggregate.iconic_score := round2 iconic;
            Aggregate.trending_score := round2 trending;
            Aggregate.mentions_90d := recent;
            Aggregate.unique_threads := uniqueThreadCount (m :: ms);
            Aggregate.total_mentions := len (m :: ms);
            Aggregate.total_upvotes := totalUpvotes (m :: ms);
            Aggregate.last_seen :=
              fold_left Z.max (map Mention.timestamp ms) (Mention.timestamp m);
            Aggregate.top_snippets := top_snippets (m :: ms) |})
   | Raise e => Raise e
   end, advance c).
Proof.
  intros Hacc. unfold compute_restaurant_scores.
  cbn [is_empty]. rewrite evidence_rule.
  fold (uniqueThreadCount (m :: ms)). fold (totalUpvotes (m :: ms)).
  rewrite Hacc. cbn [negb].
  unfold run_bind, datetime_now, run_lift, run_ret.
  destruct (score_loop (c 0%nat) (m :: ms) (0%R, 0%R, 0)) as [[[i t] n] | e];
    reflexivity.
Qed.

Lemma compute_present (p : string) (ms : list Mention.t) (c : Clock) :
  ms <> [] ->
  accept (uniqueThreadCount ms) (totalUpvotes ms) = true ->
  Forall (scorable_at (c 0%nat)) ms ->
  exists agg,
    compute_restaurant_scores p ms c = (Ok (Some agg), advance c)
    /\ (Aggregate.trending_score agg <= Aggregate.iconic_score agg)%R.
Proof.
  intros Hne Hacc Hsc. destruct ms as [| m ms]; [congruence | ].
  rewrite compute_accepted by exact Hacc.
  destruct (score_loop_scorable (c 0%nat) _ Hsc 0%R 0%R 0)
    as (i & t & n & E & B).
  rewrite E. eexists. split; [reflexivity | ].
  cbn [Aggregate.trending_score Aggregate.iconic_score].
  apply round2_mono. lra.
Qed.

Lemma compute_fault (p : string) (good : list Mention.t) (bad : Mention.t)
  (rest : list Mention.t) (e : PyExn) (c : Clock) :
  accept (uniqueThreadCount (good ++ bad :: rest))
    (totalUpvotes (good ++ bad :: rest)) = true ->
  Forall (scorable_at (c 0%nat)) good ->
  fault_at (c 0%nat) bad e ->
  compute_restaurant_scores p (good ++ bad :: rest) c = (Raise e, advance c).
Proof.
  intros Hacc Hgood Hbad.
  pose proof (score_loop_fault (c 0%nat) good bad rest e Hgood Hbad
                (0%R, 0%R, 0)) as Hloop.
  destruct (good ++ bad :: rest)%list as [| m ms] eqn:E;
    [destruct good; discriminate E | ].
  rewrite compute_accepted by exact Hacc. rewrite Hloop. reflexivity.
Qed.

Lemma compute_raises (p : string) (ms : list Mention.t) (c : Clock) :
  accept (uniqueThreadCount ms) (totalUpvotes ms) = true ->
  Exists (fun m => ~ scorable_at (c 0%nat) m) ms ->
  exists e,
    compute_restaurant_scores p ms c = (Raise e, advance c)
    /\ (e = ValueError \/ e = OverflowError).
Proof.
  intros Hacc Hex. destruct ms as [| m ms]; [inversion Hex | ].
  rewrite compute_accepted by exact Hacc.
  destruct (score_loop_unscorable (c 0%nat) (m :: ms) Hex (0%R, 0%R, 0))
    as (e & E & Hk).
  exists e. rewrite E. split; [reflexivity | exact Hk].
Qed.

Lemma all_or_exists (now : datetime) (ms : list Mention.t) :
  Forall (scorable_at now) ms
  \/ Exists (fun m => ~ scorable_at now m) ms.
Proof.
  destruct (scorable_all_or_not now ms)
    as [Hall | (good & bad & rest & -> & _ & Hb)]; [left; exact Hall | ].
  right. apply Exists_exists. exists bad.
  split; [apply in_or_app; right; left; reflexivity | exact Hb].
Qed.

Lemma scorable_at_near (now : datetime) (m : Mention.t) :
  scorable m -> -31000 <= age_days_at now m -> scorable_at now m.
Proof.
  intros Hs Ha. split; [exact Hs | ].
  apply no_overflow_near. apply IZR_le in Ha. exact Ha.
Qed.

(** The result never depends on more than the first reading of the
    clock. *)
Lemma compute_first_reading (p : string) (ms : list Mention.t)
  (c1 c2 : Clock) :
  c1 0%nat = c2 0%nat ->
  fst (compute_restaurant_scores p ms c1)
  = fst (compute_restaurant_scores p ms c2).
Proof.
  intros Hc.
  destruct (accept (uniqueThreadCount ms) (totalUpvotes ms)) eqn:Hacc.
  - destruct ms as [| m ms]; [reflexivity | ].
    rewrite !compute_accepted by exact Hacc. cbn [fst].
    rewrite Hc. reflexivity.
  - rewrite !compute_rejected by exact Hacc. reflexivity.
Qed.

(** The loop reads the clock once per accepted group and depends on no
    other reading. *)
Lemma aggregate_groups_agree (items : Groups) :
  forall (aggregations : list Aggregate.t) (c1 c2 : Clock),
  (forall j, (j < List.length (filter (fun g => accepted (snd g)) items))%nat ->
             c1 j = c2 j) ->
  fst (aggregate_groups items aggregations c1)
  = fst (aggregate_groups items aggregations c2).
Proof.
  induction items as [| [p ms] items IH]; intros aggs c1 c2 Hc.
  - reflexivity.
  - cbn [aggregate_groups filter snd] in *. unfold run_bind.
    destruct (accepted ms) eqn:Hacc; unfold accepted in Hacc.
    + destruct ms as [| m ms]; [discriminate Hacc | ].
      rewrite !compute_accepted by exact Hacc.
      rewrite <- (Hc 0%nat) by (cbn [List.length]; lia).
      assert (Hc' : forall j,
                (j < List.length (filter (fun g => accepted (snd g)) items))%nat ->
                advance c1 j = advance c2 j).
      { intros j Hj. apply (Hc (S j)). cbn [List.length]. lia. }
      destruct (score_loop (c1 0%nat) (m :: ms) (0%R, 0%R, 0))
        as [[[i t] n] | e]; [apply IH; exact Hc' | reflexivity].
    + rewrite !compute_rejected by exact Hacc. apply IH. exact Hc.
Qed.

Lemma score_loop_sums (now : datetime) (ms : list Mention.t) :
  Forall (scorable_at now) ms ->
  forall (i t : R) (n : Z),
    score_loop now ms (i, t, n)
    = Ok (fold_left Rplus (map (score_at now) ms) i,
          fold_left Rplus (map (score_at now) (filter (in_window now) ms)) t,
          n + len (filter (in_window now) ms)).
Proof.
  induction 1 as [| m ms [[Hc Hp] Ho] Hms IH]; intros i t n.
  - cbn. rewrite Z.add_0_r. reflexivity.
  - cbn [score_loop]. fold (age_days_at now m).
    rewrite mention_score_ok by assumption.
    cbn [Py.bind map filter].
    fold (score_at now m).
    change (age_days_at now m <=? TRENDING_WINDOW_DAYS)
      with (in_window now m).
    destruct (in_window now m).
    + rewrite IH. cbn [map fold_left]. unfold len. cbn [List.length].
      rewrite Nat2Z.inj_succ. do 2 f_equal. lia.
    + rewrite IH. reflexivity.
Qed.

(** What a returned aggregate holds, field by field. *)
Lemma compute_some_inv (p : string) (ms : list Mention.t) (c : Clock)
  (agg : Aggregate.t) :
  fst (compute_restaurant_scores p ms c) = Ok (Some agg) ->
  accepted ms = true /\ Forall (scorable_at (c 0%nat)) ms
  /\ exists m rest,
       ms = m :: rest
       /\ agg =
          {| Aggregate.place_id := p;
             Aggregate.iconic_score :=
               round2 (total (map (score_at (c 0%nat)) ms));
             Aggregate.trending_score :=
               round2 (total (map (score_at (c 0%nat))
                                (filter (in_window (c 0%nat)) ms)));
             Aggregate.mentions_90d := len (filter (in_window (c 0%nat)) ms);
             Aggregate.unique_threads := uniqueThreadCount ms;
             Aggregate.total_mentions := len ms;
             Aggregate.total_upvotes := totalUpvotes ms;
             Aggregate.last_seen :=
               fold_left Z.max (map Mention.timestamp rest)
                 (Mention.timestamp m);
             Aggregate.top_snippets := top_snippets ms |}.
Proof.
  intros Hagg. unfold accepted.
  destruct (accept (uniqueThreadCount ms) (totalUpvotes ms)) eqn:Hacc.
  - destruct ms as [| m rest]; [discriminate Hagg | ].
    destruct (all_or_exists (c 0%nat) (m :: rest)) as [Hsc | Hex].
    + split; [reflexivity | split; [exact Hsc | ]].
      exists m, rest. split; [reflexivity | ].
      rewrite compute_accepted in Hagg by exact Hacc.
      rewrite (score_loop_sums _ _ Hsc) in Hagg. cbn [fst] in Hagg.
      injection Hagg as <-. reflexivity.
    + destruct (compute_raises p (m :: rest) c Hacc Hex) as (e & E & _).
      rewrite E in Hagg. discriminate Hagg.
  - rewrite compute_rejected in Hagg by exact Hacc. discriminate Hagg.
Qed.

Ltac scorable_at_list :=
  repeat (apply Forall_cons;
          [apply scorable_at_near;
           [unfold scorable; cbn; lia | vm_compute; discriminate] | ]);
  apply Forall_nil.

(** * The claims *)

(** ** Decay and mention score *)

(** C8. For a positive half-life, [recency_decay] returns
    [exp(-ln(2) * ageDays / halfLifeDays)] at every age at which
    [math.exp] does not overflow, and so at every age [>= 0] (at the other
    ages, all negative, it raises [OverflowError]); this value strictly
    decreases as the age grows from any [a1 >= 0] to any [a2 > a1]; and at
    [ageDays = halfLifeDays] it is one half. *)
Theorem recency_decay_spec (h : R) :
  (0 < h)%R ->
  (forall a, ~ overflows a h -> recency_decay a h = Ok (decay_spec a h))
  /\ (forall a, overflows a h -> recency_decay a h = Raise OverflowError)
  /\ (forall a, (0 <= a)%R -> recency_decay a h = Ok (decay_spec a h))
  /\ (forall a1 a2, (0 <= a1)%R -> (a1 < a2)%R ->
        exists d1 d2,
          recency_decay a1 h = Ok d1 /\ recency_decay a2 h = Ok d2
          /\ (d2 < d1)%R)
  /\ recency_decay h h = Ok (1 / 2)%R.
Proof.
  intros Hh.
  assert (Heq : forall a, ~ overflows a h ->
                  recency_decay a h = Ok (decay_spec a h)).
  { intros a Ha. rewrite recency_decay_ok by (lra || exact Ha).
    rewrite decay_spec_eq. reflexivity. }
  assert (Hpos : forall a, (0 <= a)%R ->
                   recency_decay a h = Ok (decay_spec a h)).
  { intros a Ha. apply Heq, no_overflow_nonneg; assumption. }
  split; [exact Heq | split; [ | split; [exact Hpos | split]]].
  - intros a Ha. apply recency_decay_overflow; [lra | exact Ha].
  - intros a1 a2 Ha1 Hlt.
    exists (decay_spec a1 h), (decay_spec a2 h).
    repeat split; try (apply Hpos; lra).
    apply decay_spec_decreasing; assumption.
  - rewrite Hpos, decay_spec_half by lra. reflexivity.
Qed.

Lemma recency_decay_spec_witness :
  (0 < 45)%R
  /\ recency_decay 45 45 = Ok (1 / 2)%R
  /\ exists d1 d2,
       recency_decay 0 45 = Ok d1 /\ recency_decay 90 45 = Ok d2
       /\ (d2 < d1)%R.
Proof.
  assert (H45 : (0 < 45)%R) by lra.
  destruct (recency_decay_spec 45 H45) as (_ & _ & _ & Hmono & Hhalf).
  split; [exact H45 | split; [exact Hhalf | ]].
  apply Hmono; lra.
Defined.

(** C7, as stated, fails on its worked example: with [postUpvotes = 0]
    the post still contributes [0.3 * sqrt(1)], so the score at age 0 is
    [sqrt(10) + 0.3], above 3.46, and not about 3.16. *)
Lemma mention_score_example_off :
  exists v, mention_score 9 0 0 0 = Ok v /\ (3.46 < v)%R /\ ~ approx v 3.16.
Proof.
  exists (score_spec 9 0 0 0).
  split; [apply mention_score_ok; try lia; apply no_overflow_nonneg; lra | ].
  rewrite score_spec_fresh. pose proof sqrt10_bounds as [Hlo Hhi].
  split; [lra | ].
  unfold approx. intros H.
  rewrite Rabs_right in H by lra. lra.
Qed.

(** C7, amended.  For non-negative inputs [mention_score] returns
    [(sqrt(c + 1) + 0.3 * sqrt(p + 1)) * decay(age) * (1 + min(0.3, ctx / 10000))];
    for [c = 9, p = 0, ctx = 0] that is about 3.46 at age 0 and about 1.73
    at age 45. *)
Theorem mention_score_spec :
  (forall (c p : Z) (a : R) (x : Z),
      0 <= c -> 0 <= p -> (0 <= a)%R -> 0 <= x ->
      mention_score c p a x = Ok (score_spec c p a x))
  /\ (exists v, mention_score 9 0 0 0 = Ok v /\ approx v 3.46)
  /\ (exists v, mention_score 9 0 45 0 = Ok v /\ approx v 1.73).
Proof.
  pose proof sqrt10_bounds as [Hlo Hhi].
  split; [ | split].
  - intros c p a x Hc Hp Ha _.
    apply mention_score_ok; try lia. apply no_overflow_nonneg; lra.
  - exists (score_spec 9 0 0 0).
    split; [apply mention_score_ok; try lia; apply no_overflow_nonneg; lra | ].
    rewrite score_spec_fresh. unfold approx.
    apply Rabs_le. lra.
  - exists (score_spec 9 0 45 0).
    split; [apply mention_score_ok; try lia; apply no_overflow_nonneg; lra | ].
    rewrite score_spec_half_life. unfold approx.
    apply Rabs_le. lra.
Qed.

Lemma mention_score_spec_witness :
  0 <= 20 /\ 0 <= 100 /\ (0 <= 30)%R /\ 0 <= 250
  /\ mention_score 20 100 30 250 = Ok (score_spec 20 100 30 250).
Proof.
  repeat (split; [lia || lra | ]).
  apply (proj1 mention_score_spec); lia || lra.
Defined.

(** ** Evidence rule and outcomes *)

Lemma accept_true_iff (u t : Z) : accept u t = true <-> 2 <= u \/ 10 <= t.
Proof.
  unfold accept. rewrite orb_true_iff, !Z.leb_le. reflexivity.
Qed.

Lemma accept_false_iff (u t : Z) : accept u t = false <-> u < 2 /\ t < 10.
Proof.
  unfold accept. rewrite orb_false_iff, !Z.leb_gt. reflexivity.
Qed.

(** C5, as stated, fails: [downvoted_group] has 15 upvotes in all, so the
    evidence rule accepts it, and yet no aggregate exists for it: the
    mention with -5 upvotes makes [math.sqrt] raise. *)
Lemma evidence_not_sufficient :
  downvoted_group <> []
  /\ 10 <= totalUpvotes downvoted_group
  /\ fst (compute_restaurant_scores "p" downvoted_group (frozen (day 1)))
     = Raise ValueError
  /\ ~ (exists agg,
          fst (compute_restaurant_scores "p" downvoted_group (frozen (day 1)))
          = Ok (Some agg)).
Proof.
  assert (E : compute_restaurant_scores "p" downvoted_group (frozen (day 1))
              = (Raise ValueError, advance (frozen (day 1)))).
  { apply (compute_fault "p" [mention_at "t3_a" "t1_x" 20 (day 0)]
             (mention_at "t3_a" "t1_y" (-5) (day 0)) [] ValueError).
    - reflexivity.
    - scorable_at_list.
    - left. split; [reflexivity | ]. unfold scorable. cbn. lia. }
  split; [discriminate | ].
  split; [vm_compute; discriminate | ].
  rewrite E. split; [reflexivity | ].
  intros [agg H]. discriminate H.
Qed.

(** C5, amended.  For a non-empty group in which no mention makes the
    scorer fail at the reading of the clock (every upvote count at least
    -1, no timestamp so far ahead that [math.exp] overflows), an aggregate
    is produced iff the group has at least 2 unique threads or at least 10
    total upvotes: with 1 thread and 9 upvotes none, with 1 thread and 10
    upvotes one, with 2 threads and 0 upvotes one. *)
Theorem evidence_gating (p : string) (ms : list Mention.t) (c : Clock) :
  ms <> [] ->
  Forall (scorable_at (c 0%nat)) ms ->
  let present :=
    exists agg, fst (compute_restaurant_scores p ms c) = Ok (Some agg) in
  (present <-> 2 <= uniqueThreadCount ms \/ 10 <= totalUpvotes ms)
  /\ (uniqueThreadCount ms = 1 -> totalUpvotes ms = 9 -> ~ present)
  /\ (uniqueThreadCount ms = 1 -> totalUpvotes ms = 10 -> present)
  /\ (uniqueThreadCount ms = 2 -> totalUpvotes ms = 0 -> present).
Proof.
  intros Hne Hsc present.
  assert (Hiff : present
                 <-> 2 <= uniqueThreadCount ms \/ 10 <= totalUpvotes ms).
  { rewrite <- accept_true_iff. subst present. split.
    - intros [agg Hagg].
      destruct (accept _ _) eqn:Hacc; [reflexivity | ].
      rewrite compute_rejected in Hagg by exact Hacc. discriminate Hagg.
    - intros Hacc.
      destruct (compute_present p ms c Hne Hacc Hsc) as (agg & E & _).
      exists agg. rewrite E. reflexivity. }
  split; [exact Hiff | ].
  repeat split; intros Hu Ht; try intros Hp; rewrite Hiff in *; lia.
Qed.

Lemma evidence_gating_witness :
  single_thread 10 <> []
  /\ Forall (scorable_at (frozen (day 1) 0%nat)) (single_thread 10)
  /\ exists agg,
       fst (compute_restaurant_scores "p" (single_thread 10) (frozen (day 1)))
       = Ok (Some agg).
Proof.
  assert (Hne : single_thread 10 <> []) by discriminate.
  assert (Hsc : Forall (scorable_at (frozen (day 1) 0%nat)) (single_thread 10))
    by scorable_at_list.
  split; [exact Hne | split; [exact Hsc | ]].
  destruct (evidence_gating "p" (single_thread 10) (frozen (day 1)) Hne Hsc)
    as (_ & _ & H10 & _).
  apply H10; reflexivity.
Defined.

(** The three groups of the evidence scenario, run. *)
Example one_thread_nine_upvotes (c : Clock) :
  compute_restaurant_scores "p" (single_thread 9) c = (Ok None, c).
Proof. apply compute_rejected. reflexivity. Qed.

Example two_threads_no_upvotes :
  exists agg,
    compute_restaurant_scores "p" two_threads (frozen (day 200))
    = (Ok (Some agg), advance (frozen (day 200))).
Proof.
  destruct (compute_present "p" two_threads (frozen (day 200)))
    as (agg & E & _).
  - discriminate.
  - reflexivity.
  - scorable_at_list.
  - exists agg. exact E.
Qed.

(** C6. Every aggregate that is produced has
    [trending_score <= iconic_score]. *)
Theorem trending_le_iconic (p : string) (ms : list Mention.t) (c : Clock)
  (agg : Aggregate.t) :
  fst (compute_restaurant_scores p ms c) = Ok (Some agg) ->
  (Aggregate.trending_score agg <= Aggregate.iconic_score agg)%R.
Proof.
  intros Hagg.
  destruct (accept (uniqueThreadCount ms) (totalUpvotes ms)) eqn:Hacc.
  - destruct ms as [| m ms]; [discriminate Hagg | ].
    destruct (all_or_exists (c 0%nat) (m :: ms)) as [Hsc | Hex].
    + destruct (compute_present p (m :: ms) c) as (agg' & E & Hle);
        [discriminate | exact Hacc | exact Hsc | ].
      rewrite E in Hagg. cbn [fst] in Hagg.
      injection Hagg as <-. exact Hle.
    + destruct (compute_raises p (m :: ms) c Hacc Hex) as (e & E & _).
      rewrite E in Hagg. discriminate Hagg.
  - rewrite compute_rejected in Hagg by exact Hacc. discriminate Hagg.
Qed.

Lemma trending_le_iconic_witness :
  exists agg,
    fst (compute_restaurant_scores "p" two_threads (frozen (day 200)))
    = Ok (Some agg)
    /\ (Aggregate.trending_score agg <= Aggregate.iconic_score agg)%R.
Proof.
  destruct two_threads_no_upvotes as [agg E].
  exists agg.
  assert (H : fst (compute_restaurant_scores "p" two_threads
                     (frozen (day 200))) = Ok (Some agg))
    by (rewrite E; reflexivity).
  split; [exact H | ].
  exact (trending_le_iconic "p" two_threads (frozen (day 200)) agg H).
Defined.

(** ** Determinism *)

(** C1, as stated, fails for the batch: there is no single reference
    instant.  The clock is read anew for every accepted group, so two runs
    on the same rows that start at the same instant differ when the clock
    moves on: read at day 90 the mention of the second place is 90 days
    old and recent, read one day later it is not. *)
Lemma batch_depends_on_later_readings :
  frozen (day 90) 0%nat = ticking (day 90) 0%nat
  /\ fst (recompute_all_scores drifting_rows (frozen (day 90)))
     <> fst (recompute_all_scores drifting_rows (ticking (day 90))).
Proof.
  split; [reflexivity | ].
  unfold recompute_all_scores.
  change (group_by_place drifting_rows)
    with [("place-1", [mention_of_row (nth 0 drifting_rows (Row.mk "" "" "" None 0 0 ""))]);
          ("place-2", [mention_of_row (nth 1 drifting_rows (Row.mk "" "" "" None 0 0 ""))])].
  cbn [nth drifting_rows aggregate_groups]. unfold run_bind.
  set (m1 := mention_of_row _). set (m2 := mention_of_row _).
  destruct (compute_present "place-1" [m1] (frozen (day 90)))
    as (a1 & E1 & _); [discriminate | reflexivity | scorable_at_list | ].
  destruct (compute_present "place-1" [m1] (ticking (day 90)))
    as (b1 & F1 & _); [discriminate | reflexivity | scorable_at_list | ].
  rewrite E1, F1.
  destruct (compute_present "place-2" [m2] (advance (frozen (day 90))))
    as (a2 & E2 & _); [discriminate | reflexivity | scorable_at_list | ].
  destruct (compute_present "place-2" [m2] (advance (ticking (day 90))))
    as (b2 & F2 & _); [discriminate | reflexivity | scorable_at_list | ].
  rewrite E2, F2. cbn [aggregate_groups run_ret fst app].
  intros H. injection H as _ H2.
  assert (Ha : fst (compute_restaurant_scores "place-2" [m2]
                      (advance (frozen (day 90)))) = Ok (Some a2))
    by (rewrite E2; reflexivity).
  assert (Hb : fst (compute_restaurant_scores "place-2" [m2]
                      (advance (ticking (day 90)))) = Ok (Some b2))
    by (rewrite F2; reflexivity).
  destruct (compute_some_inv _ _ _ _ Ha) as (_ & _ & ? & ? & _ & Ea).
  destruct (compute_some_inv _ _ _ _ Hb) as (_ & _ & ? & ? & _ & Eb).
  assert (Hn : Aggregate.mentions_90d a2 = Aggregate.mentions_90d b2)
    by (rewrite H2; reflexivity).
  rewrite Ea, Eb in Hn. vm_compute in Hn. discriminate Hn.
Qed.

(** C1, amended.  For one group the result, snippets and their order
    included, is a function of the mentions and of the instant that the
    one reading of the clock shows.  For the batch the list of aggregates
    is a function of the rows and of the readings of the clock, one per
    group that passes the evidence rule: two runs on the same rows agree
    whenever their clocks agree on that many readings. *)
Theorem aggregate_deterministic :
  (forall (p : string) (ms : list Mention.t) (c1 c2 : Clock),
      c1 0%nat = c2 0%nat ->
      fst (compute_restaurant_scores p ms c1)
      = fst (compute_restaurant_scores p ms c2))
  /\ (forall (rows : list Row.t) (c1 c2 : Clock),
        (forall j,
            (j < List.length
                   (filter (fun g => accepted (snd g)) (group_by_place rows)))%nat ->
            c1 j = c2 j) ->
        fst (recompute_all_scores rows c1)
        = fst (recompute_all_scores rows c2)).
Proof.
  split.
  - exact compute_first_reading.
  - intros rows c1 c2 Hc. unfold recompute_all_scores.
    apply aggregate_groups_agree. exact Hc.
Qed.

Lemma aggregate_deterministic_witness :
  frozen (day 7) 0%nat = ticking (day 7) 0%nat
  /\ fst (compute_restaurant_scores "p" tie_group (frozen (day 7)))
     = fst (compute_restaurant_scores "p" tie_group (ticking (day 7)))
  /\ (forall j,
        (j < List.length
               (filter (fun g => accepted (snd g))
                  (group_by_place sample_rows)))%nat ->
        frozen (day 7) j = ticking (day 7) j)
  /\ fst (recompute_all_scores sample_rows (frozen (day 7)))
     = fst (recompute_all_scores sample_rows (ticking (day 7))).
Proof.
  assert (H : frozen (day 7) 0%nat = ticking (day 7) 0%nat) by reflexivity.
  assert (H1 : forall j,
             (j < List.length
                    (filter (fun g => accepted (snd g))
                       (group_by_place sample_rows)))%nat ->
             frozen (day 7) j = ticking (day 7) j).
  { intros j Hj. change (j < 1)%nat in Hj.
    destruct j as [| j]; [reflexivity | lia]. }
  split; [exact H | ].
  split; [exact (proj1 aggregate_deterministic "p" tie_group _ _ H) | ].
  split; [exact H1 | ].
  exact (proj2 aggregate_deterministic sample_rows _ _ H1).
Defined.

(** ** Empty input and the two meanings of [None] *)

(** C9. With no rows the batch produces the empty list of aggregates and
    raises nothing (nor does it read the clock); with no mentions
    [compute_restaurant_scores] returns [None]. *)
Theorem empty_input (c : Clock) :
  recompute_all_scores [] c = (Ok [], c)
  /\ forall p, compute_restaurant_scores p [] c = (Ok None, c).
Proof. split; [reflexivity | intros p; reflexivity]. Qed.

(** C10. [compute_restaurant_scores] returns [None] in exactly two cases,
    an empty list of mentions and a non-empty group that the evidence rule
    rejects; in both the outcome is the very one of the empty list, value
    and clock alike, so nothing tells the two cases apart. *)
Theorem none_cases (p : string) (ms : list Mention.t) (c : Clock) :
  (fst (compute_restaurant_scores p ms c) = Ok None
   <-> ms = []
       \/ (ms <> [] /\ uniqueThreadCount ms < MIN_THREADS
           /\ totalUpvotes ms < MIN_TOTAL_UPVOTES))
  /\ (fst (compute_restaurant_scores p ms c) = Ok None ->
      compute_restaurant_scores p ms c = compute_restaurant_scores p [] c).
Proof.
  assert (Hcases :
    fst (compute_restaurant_scores p ms c) = Ok None ->
    ms = [] \/ accept (uniqueThreadCount ms) (totalUpvotes ms) = false).
  { intros Hnone.
    destruct ms as [| m ms]; [left; reflexivity | right].
    destruct (accept _ _) eqn:Hacc; [ | reflexivity].
    rewrite compute_accepted in Hnone by exact Hacc. cbn [fst] in Hnone.
    destruct (score_loop _ _ _) as [[[i t] n] | e]; discriminate Hnone. }
  unfold MIN_THREADS, MIN_TOTAL_UPVOTES. split.
  - split.
    + intros Hnone. destruct (Hcases Hnone) as [-> | Hrej].
      * left. reflexivity.
      * destruct ms as [| m ms]; [left; reflexivity | right].
        apply accept_false_iff in Hrej. split; [discriminate | exact Hrej].
    + intros [-> | (_ & Hrej)]; [reflexivity | ].
      apply accept_false_iff in Hrej.
      rewrite compute_rejected by exact Hrej. reflexivity.
  - intros Hnone. destruct (Hcases Hnone) as [-> | Hrej]; [reflexivity | ].
    rewrite compute_rejected by exact Hrej. reflexivity.
Qed.

Lemma none_cases_witness :
  fst (compute_restaurant_scores "p" (single_thread 9) (ticking 0)) = Ok None
  /\ compute_restaurant_scores "p" (single_thread 9) (ticking 0)
     = compute_restaurant_scores "p" [] (ticking 0).
Proof.
  assert (H : fst (compute_restaurant_scores "p" (single_thread 9)
                     (ticking 0)) = Ok None) by reflexivity.
  split; [exact H | ].
  exact (proj2 (none_cases "p" (single_thread 9) (ticking 0)) H).
Defined.

(** ** Malformed mentions *)

(** C2, as stated, fails: each mention of [future_group] lies seven days
    in the future of the reading, one has a negative upvote count, and yet
    no exception is raised: an aggregate is produced. *)
Lemma malformed_goes_unnoticed :
  Forall (malformed (day 3)) future_group
  /\ exists agg,
       compute_restaurant_scores "p" future_group (frozen (day 3))
       = (Ok (Some agg), advance (frozen (day 3))).
Proof.
  split.
  - repeat constructor; left; reflexivity.
  - destruct (compute_present "p" future_group (frozen (day 3)))
      as (agg & E & _).
    + discriminate.
    + reflexivity.
    + scorable_at_list.
    + exists agg. exact E.
Qed.

(** C2, amended.  Mentions are not validated, and there is no
    [ValidationError].  A group that the evidence rule rejects gives
    [None], whatever its mentions hold.  An accepted group in which every
    upvote count is at least -1 and no timestamp lies so far after the
    reading of the clock that [math.exp] overflows gives an aggregate;
    timestamps up to 31000 days after the reading are among these.  Any
    other accepted group fails with the exception of its first faulty
    mention in input order: the [ValueError] of [math.sqrt] for an upvote
    count below -1, else the [OverflowError] of [math.exp]. *)
Theorem no_validation (p : string) (ms : list Mention.t) (c : Clock) :
  let now := c 0%nat in
  let accepted := accept (uniqueThreadCount ms) (totalUpvotes ms) in
  (accepted = false -> compute_restaurant_scores p ms c = (Ok None, c))
  /\ (ms <> [] -> accepted = true -> Forall (scorable_at now) ms ->
      exists agg,
        compute_restaurant_scores p ms c = (Ok (Some agg), advance c))
  /\ (forall m, scorable m -> -31000 <= age_days_at now m ->
        scorable_at now m)
  /\ (accepted = true ->
      forall good bad rest e,
        ms = (good ++ bad :: rest)%list ->
        Forall (scorable_at now) good ->
        fault_at now bad e ->
        compute_restaurant_scores p ms c = (Raise e, advance c))
  /\ (forall m, ~ scorable_at now m ->
        fault_at now m ValueError \/ fault_at now m OverflowError).
Proof.
  intros now accepted. subst now accepted. split; [ | split; [ | split; [ | split]]].
  - apply compute_rejected.
  - intros Hne Hacc Hsc.
    destruct (compute_present p ms c Hne Hacc Hsc) as (agg & E & _).
    exists agg. exact E.
  - intros m. apply scorable_at_near.
  - intros Hacc good bad rest e -> Hgood Hbad.
    apply compute_fault; assumption.
  - intros m Hm. destruct (fault_at_exists (c 0%nat) m Hm) as [e He].
    destruct (fault_at_kind _ _ _ He) as [-> | ->]; [left | right]; exact He.
Qed.

Lemma no_validation_witness :
  accept (uniqueThreadCount downvoted_group) (totalUpvotes downvoted_group)
  = true
  /\ compute_restaurant_scores "p" downvoted_group (frozen (day 1))
     = (Raise ValueError, advance (frozen (day 1)))
  /\ accept (uniqueThreadCount far_future_group)
       (totalUpvotes far_future_group) = true
  /\ fault_at (day 0) (mention_at "t3_a" "t1_x" 20 (day 100000)) OverflowError
  /\ compute_restaurant_scores "p" far_future_group (frozen (day 0))
     = (Raise OverflowError, advance (frozen (day 0)))
  /\ accept (uniqueThreadCount (single_thread (-3)))
        (totalUpvotes (single_thread (-3))) = false
  /\ compute_restaurant_scores "p" (single_thread (-3)) (frozen (day 1))
     = (Ok None, frozen (day 1))
  /\ Forall (scorable_at (day 3)) future_group
  /\ exists agg,
       compute_restaurant_scores "p" future_group (frozen (day 3))
       = (Ok (Some agg), advance (frozen (day 3))).
Proof.
  assert (Hacc : accept (uniqueThreadCount downvoted_group)
                   (totalUpvotes downvoted_group) = true) by reflexivity.
  assert (Hgood : Forall (scorable_at (day 1))
                    [mention_at "t3_a" "t1_x" 20 (day 0)])
    by scorable_at_list.
  assert (Hbad : fault_at (day 1) (mention_at "t3_a" "t1_y" (-5) (day 0))
                   ValueError).
  { left. split; [reflexivity | ]. unfold scorable. cbn. lia. }
  assert (Hacc' : accept (uniqueThreadCount far_future_group)
                    (totalUpvotes far_future_group) = true) by reflexivity.
  assert (Hfar : fault_at (day 0) (mention_at "t3_a" "t1_x" 20 (day 100000))
                   OverflowError).
  { right. split; [reflexivity | split; [unfold scorable; cbn; lia | ]].
    apply overflow_far. apply IZR_le. vm_compute. discriminate. }
  assert (Hrej : accept (uniqueThreadCount (single_thread (-3)))
                   (totalUpvotes (single_thread (-3))) = false)
    by reflexivity.
  assert (Hsc : Forall (scorable_at (day 3)) future_group)
    by scorable_at_list.
  split; [exact Hacc | ].
  split.
  { exact (proj1 (proj2 (proj2 (proj2
             (no_validation "p" downvoted_group (frozen (day 1))))))
             Hacc [mention_at "t3_a" "t1_x" 20 (day 0)]
             (mention_at "t3_a" "t1_y" (-5) (day 0)) [] ValueError
             eq_refl Hgood Hbad). }
  split; [exact Hacc' | split; [exact Hfar | ]].
  split.
  { exact (proj1 (proj2 (proj2 (proj2
             (no_validation "p" far_future_group (frozen (day 0))))))
             Hacc' [] (mention_at "t3_a" "t1_x" 20 (day 100000))
             [mention_at "t3_a" "t1_y" (-5) (day 0)] OverflowError
             eq_refl (Forall_nil _) Hfar). }
  split; [exact Hrej | ].
  split.
  { exact (proj1 (no_validation "p" (single_thread (-3)) (frozen (day 1)))
             Hrej). }
  split; [exact Hsc | ].
  apply (proj1 (proj2 (no_validation "p" future_group (frozen (day 3)))));
    [discriminate | reflexivity | exact Hsc].
Defined.

(** ** Top snippets *)

(** C3, as stated, fails: of two mentions with 20 upvotes each, the one
    that comes first in the input stays first although its timestamp is
    the later one. *)
Lemma tie_not_broken_by_timestamp :
  top_mentions tie_group = tie_group
  /\ ~ StronglySorted ranks_before (top_mentions tie_group).
Proof.
  split; [reflexivity | ].
  change (top_mentions tie_group) with tie_group.
  intros H. apply StronglySorted_inv in H. destruct H as [_ H].
  inversion H as [| ? ? Hrk _]; subst.
  unfold ranks_before in Hrk. cbn in Hrk.
  unfold day, MICROSECONDS_PER_DAY in Hrk. lia.
Qed.

(** C3, amended.  The top snippets are the snippets of the first three
    mentions of the group sorted by upvote count descending, mentions of
    equal count keeping the order of the input; each text is the snippet
    cut to 200 characters.  When the input is in timestamp order, ties
    therefore go to the earlier timestamp; for upvotes [5, 20, 3, 20] given
    in this order the result is the first 20, the second 20, then the 5. *)
Theorem top_snippets_spec (ms : list Mention.t) :
  let ranked := sorted_reverse Mention.score ms in
  top_snippets ms = map snippet_of (firstn 3 ranked)
  /\ Permutation ranked ms
  /\ StronglySorted score_ge ranked
  /\ (forall k, with_score k ranked = with_score k ms)
  /\ (forall m,
        Snippet.text (snippet_of m) = substring 0 200 (Mention.snippet m)
        /\ (String.length (Snippet.text (snippet_of m)) <= 200)%nat
        /\ prefix (Snippet.text (snippet_of m)) (Mention.snippet m) = true)
  /\ (StronglySorted earlier ms ->
      StronglySorted ranks_before (top_mentions ms))
  /\ (forall t1 t2 t3 t4,
        map Mention.score (top_mentions (ranked_example t1 t2 t3 t4))
        = [20; 20; 5]
        /\ map Mention.timestamp (top_mentions (ranked_example t1 t2 t3 t4))
           = [t2; t4; t1]).
Proof.
  intros ranked. subst ranked.
  split; [reflexivity | ].
  split; [apply sorted_reverse_perm | ].
  split; [apply sorted_reverse_sorted | ].
  split; [intros k; apply sorted_reverse_stable | ].
  split.
  { intros m. cbn [snippet_of Snippet.text].
    split; [reflexivity | split].
    - rewrite slice_to_length. apply Nat.le_min_l.
    - apply slice_to_prefix. }
  split.
  { intros Hts. unfold top_mentions.
    apply StronglySorted_firstn, sorted_reverse_ranks, Hts. }
  intros t1 t2 t3 t4. split; reflexivity.
Qed.

Lemma top_snippets_spec_witness :
  StronglySorted earlier (ranked_example (day 1) (day 2) (day 3) (day 4))
  /\ StronglySorted ranks_before
       (top_mentions (ranked_example (day 1) (day 2) (day 3) (day 4))).
Proof.
  assert (Hts : StronglySorted earlier
                  (ranked_example (day 1) (day 2) (day 3) (day 4))).
  { repeat constructor; unfold earlier; cbn; discriminate. }
  split; [exact Hts | ].
  apply (top_snippets_spec (ranked_example (day 1) (day 2) (day 3) (day 4))).
  exact Hts.
Defined.

(** ** Permalinks *)

(** Outside the ids that Reddit gives out, [str.replace] and the
    stripping of a prefix part ways: the marker is removed wherever it
    stands. *)
Example replace_is_not_prefix_strip :
  permalink_of odd_id_mention = "https://reddit.com/r/FoodNYC/comments/xy/_/c"
  /\ permalink_spec odd_id_mention
     = "https://reddit.com/r/FoodNYC/comments/xt3_y/_/c".
Proof. split; reflexivity. Qed.





(** * Further properties of the scoring script *)

(** ** [recency_decay] *)

Section DecayProperties.
Local Open Scope R_scope.

(** A zero half-life raises [ZeroDivisionError].  With a positive
    half-life [recency_decay] raises [OverflowError] at the ages, all
    negative, at which [math.exp] overflows, and nowhere else; at the
    other ages the factor is positive; it is 1 at age 0, at most 1 for a
    non-negative age, and above 1 for a negative age, that is for a
    timestamp in the future. *)
Theorem recency_decay_range (a h : R) :
  (h = 0 -> recency_decay a h = Raise ZeroDivisionError)
  /\ (0 < h ->
      (overflows a h -> a < 0 /\ recency_decay a h = Raise OverflowError)
      /\ (0 <= a -> ~ overflows a h)
      /\ (~ overflows a h ->
          exists d,
            recency_decay a h = Ok d /\ 0 < d
            /\ (a = 0 -> d = 1) /\ (0 <= a -> d <= 1) /\ (a < 0 -> 1 < d))).
Proof.
  split.
  - intros ->. unfold recency_decay, truediv.
    destruct (Req_dec_T 0 0) as [_ | N]; [reflexivity | contradiction].
  - intros Hh.
    assert (Hk : 0 < ln 2 / h).
    { apply Rdiv_lt_0_compat; [exact ln2_pos | exact Hh]. }
    split; [ | split; [apply no_overflow_nonneg; exact Hh | ]].
    + intros Hov. split.
      * destruct (Rlt_dec a 0) as [Hneg | Hpos]; [exact Hneg | ].
        exfalso. apply (no_overflow_nonneg a h Hh); [lra | exact Hov].
      * apply recency_decay_overflow; [lra | exact Hov].
    + intros Hno. exists (decay_spec a h).
      split; [rewrite recency_decay_ok, decay_spec_eq by (lra || exact Hno);
              reflexivity | ].
      split; [apply decay_spec_pos | ].
      rewrite decay_spec_eq.
      split; [intros ->; rewrite <- exp_0; f_equal; ring | split].
      * intros [Ha | <-]; rewrite <- exp_0.
        -- left. apply exp_increasing. nra.
        -- right. f_equal. ring.
      * intros Ha. rewrite <- exp_0. apply exp_increasing. nra.
Qed.

Lemma recency_decay_range_witness :
  0 < 45 /\ -7 < 0 /\ ~ overflows (-7) 45
  /\ exists d, recency_decay (-7) 45 = Ok d /\ 1 < d.
Proof.
  assert (H45 : 0 < 45) by lra.
  assert (H7 : -7 < 0) by lra.
  assert (Hno : ~ overflows (-7) 45) by (apply no_overflow_near; lra).
  split; [exact H45 | split; [exact H7 | split; [exact Hno | ]]].
  destruct (proj2 (proj2 (proj2 (recency_decay_range (-7) 45) H45)) Hno)
    as (d & E & _ & _ & _ & Hfut).
  exists d. split; [exact E | exact (Hfut H7)].
Defined.

(** Where [math.exp] does not overflow, ages add up as factors multiply,
    and every further half-life halves the factor. *)
Theorem recency_decay_compose (a b h : R) :
  h <> 0 ->
  ~ overflows a h -> ~ overflows b h -> ~ overflows (a + b) h ->
  exists da db dab,
    recency_decay a h = Ok da /\ recency_decay b h = Ok db
    /\ recency_decay (a + b) h = Ok dab
    /\ dab = da * db
    /\ recency_decay (a + h) h = Ok (da / 2).
Proof.
  intros Hh Ha Hb Hab.
  assert (Hah : ~ overflows (a + h) h).
  { unfold overflows in *. intros Hov. apply Ha.
    replace (- (ln 2 / h) * (a + h)) with (- (ln 2 / h) * a - ln 2) in Hov
      by (field; exact Hh).
    pose proof ln2_pos. lra. }
  exists (decay_spec a h), (decay_spec b h), (decay_spec (a + b) h).
  rewrite !recency_decay_ok by assumption. rewrite !decay_spec_eq.
  repeat split.
  - rewrite <- exp_plus. f_equal. ring.
  - f_equal.
    replace (- (ln 2 / h) * (a + h)) with (- (ln 2 / h) * a + - ln 2)
      by (field; exact Hh).
    rewrite exp_plus, exp_Ropp, exp_ln by lra. lra.
Qed.

Lemma recency_decay_compose_witness :
  45 <> 0 /\ ~ overflows 10 45 /\ ~ overflows 0 45 /\ ~ overflows (10 + 0) 45
  /\ exists da, recency_decay 10 45 = Ok da
                /\ recency_decay (10 + 45) 45 = Ok (da / 2).
Proof.
  assert (H45 : 45 <> 0) by lra.
  assert (Ha : ~ overflows 10 45) by (apply no_overflow_near; lra).
  assert (Hb : ~ overflows 0 45) by (apply no_overflow_near; lra).
  assert (Hab : ~ overflows (10 + 0) 45) by (apply no_overflow_near; lra).
  repeat (split; [assumption | ]).
  destruct (recency_decay_compose 10 0 45 H45 Ha Hb Hab)
    as (da & _ & _ & Ea & _ & _ & _ & Eh).
  exists da. split; [exact Ea | exact Eh].
Defined.

End DecayProperties.

(** ** [mention_score] *)

Section ScoreProperties.
Local Open Scope R_scope.

Lemma upvote_weight_nonneg (c p : Z) :
  0 <= sqrt (IZR c + 1) + 0.3 * sqrt (IZR p + 1).
Proof.
  pose proof (sqrt_pos (IZR c + 1)). pose proof (sqrt_pos (IZR p + 1)). lra.
Qed.

Lemma context_boost_bounds (x : Z) :
  (0 <= x)%Z -> 1 <= 1.0 + Rmin 0.3 (IZR x / 10000) <= 1.3.
Proof.
  intros Hx. apply IZR_le in Hx.
  pose proof (Rmin_l 0.3 (IZR x / 10000)).
  assert (0 <= Rmin 0.3 (IZR x / 10000)) by (apply Rmin_glb; lra).
  lra.
Qed.

Lemma mention_score_cases (c p : Z) (a : R) (x : Z) :
  (((c < -1)%Z \/ (p < -1)%Z) /\ mention_score c p a x = Raise ValueError)
  \/ ((-1 <= c)%Z /\ (-1 <= p)%Z /\ overflows a 45
      /\ mention_score c p a x = Raise OverflowError)
  \/ ((-1 <= c)%Z /\ (-1 <= p)%Z /\ ~ overflows a 45
      /\ mention_score c p a x = Ok (score_spec c p a x)).
Proof.
  destruct (Z_lt_dec c (-1)) as [Hc | Hc];
    [left; split; [left; exact Hc | apply mention_score_raise; left; exact Hc]
    | ].
  destruct (Z_lt_dec p (-1)) as [Hp | Hp];
    [left; split; [right; exact Hp | apply mention_score_raise; right; exact Hp]
    | ].
  right. destruct (overflows_dec a 45) as [Ho | Ho]; [left | right];
    (split; [lia | split; [lia | split; [exact Ho | ]]]).
  - apply mention_score_overflow; [lia | lia | exact Ho].
  - apply mention_score_ok; [lia | lia | exact Ho].
Qed.

(** [mention_score] raises the [ValueError] of [math.sqrt] exactly when
    an upvote count is below -1; otherwise it raises the [OverflowError]
    of [math.exp] exactly when the age is one at which the exponential
    overflows, which no age from -31000 days on is and every age up to
    -64000 days is; it raises nothing else, and the context length never
    makes it fail. *)
Theorem mention_score_raises_iff (c p : Z) (a : R) (x : Z) (e : PyExn) :
  (mention_score c p a x = Raise e
   <-> (e = ValueError /\ ((c < -1)%Z \/ (p < -1)%Z))
       \/ (e = OverflowError /\ (-1 <= c)%Z /\ (-1 <= p)%Z
           /\ overflows a 45))
  /\ (-31000 <= a -> ~ overflows a 45)
  /\ (a <= -64000 -> overflows a 45).
Proof.
  split; [ | split; [apply no_overflow_near | apply overflow_far]].
  destruct (mention_score_cases c p a x)
    as [[Hneg E] | [(Hc & Hp & Ho & E) | (Hc & Hp & Ho & E)]]; rewrite E.
  - split.
    + intros H. injection H as <-. left. split; [reflexivity | exact Hneg].
    + intros [[-> _] | (-> & Hc & Hp & _)]; [reflexivity | lia].
  - split.
    + intros H. injection H as <-. right. repeat split; assumption.
    + intros [[-> Hneg] | (-> & _)]; [lia | reflexivity].
  - split; [discriminate | ].
    intros [[_ Hneg] | (_ & _ & _ & Ho')]; [lia | contradiction].
Qed.

Lemma mention_score_raises_iff_witness :
  (-31000 <= -7) /\ ~ overflows (-7) 45
  /\ (-100000 <= -64000)
  /\ mention_score 0 0 (-100000) 0 = Raise OverflowError.
Proof.
  assert (H7 : -31000 <= -7) by lra.
  assert (Hfar : -100000 <= -64000) by lra.
  split; [exact H7 | ].
  split; [exact (proj1 (proj2 (mention_score_raises_iff 0 0 (-7) 0 ValueError))
                   H7) | ].
  split; [exact Hfar | ].
  apply (proj1 (mention_score_raises_iff 0 0 (-100000) 0 OverflowError)).
  right. split; [reflexivity | split; [lia | split; [lia | ]]].
  exact (proj2 (proj2 (mention_score_raises_iff 0 0 (-100000) 0 ValueError))
           Hfar).
Defined.

(** The context bonus stops growing at 3000 characters: a longer snippet
    scores, or fails, as a snippet of 3000 characters does, and where the
    mention is scored no snippet lifts the score by more than 30 percent
    over an empty one. *)
Theorem context_boost_cap (c p : Z) (a : R) (x : Z) :
  (-1 <= c)%Z -> (-1 <= p)%Z -> (0 <= x)%Z ->
  ((3000 <= x)%Z -> mention_score c p a x = mention_score c p a 3000)
  /\ (~ overflows a 45 ->
      exists v0 v,
        mention_score c p a 0 = Ok v0 /\ mention_score c p a x = Ok v
        /\ v0 <= v <= 1.3 * v0
        /\ ((3000 <= x)%Z -> v = 1.3 * v0)).
Proof.
  intros Hc Hp Hx.
  assert (Hcap : (3000 <= x)%Z ->
                 score_spec c p a x = score_spec c p a 3000).
  { intros H3000. apply IZR_le in H3000. unfold score_spec.
    rewrite (Rmin_left 0.3 (IZR x / 10000)) by lra.
    rewrite (Rmin_left 0.3 (IZR 3000 / 10000)) by lra. reflexivity. }
  split.
  - intros H3000. destruct (overflows_dec a 45) as [Ho | Ho].
    + rewrite !mention_score_overflow by (lia || exact Ho). reflexivity.
    + rewrite !mention_score_ok by (lia || exact Ho).
      rewrite (Hcap H3000). reflexivity.
  - intros Ho.
    exists (score_spec c p a 0), (score_spec c p a x).
    rewrite !mention_score_ok by (lia || exact Ho).
    split; [reflexivity | split; [reflexivity | ]].
    unfold score_spec.
    pose proof (upvote_weight_nonneg c p) as Hw.
    pose proof (decay_spec_pos a 45) as Hd.
    pose proof (context_boost_bounds x Hx) as Hb.
    set (w := sqrt (IZR c + 1) + 0.3 * sqrt (IZR p + 1)) in *.
    set (d := decay_spec a 45) in *.
    assert (Hwd : 0 <= w * d) by (apply Rmult_le_pos; lra).
    replace (IZR 0 / 10000) with 0 by lra.
    rewrite (Rmin_right 0.3 0) by lra.
    split; [nra | ].
    intros H3000. apply IZR_le in H3000.
    rewrite (Rmin_left 0.3 (IZR x / 10000)) by lra. lra.
Qed.

Lemma context_boost_cap_witness :
  (-1 <= 9)%Z /\ (-1 <= 0)%Z /\ (0 <= 8000)%Z /\ (3000 <= 8000)%Z
  /\ mention_score 9 0 0 8000 = mention_score 9 0 0 3000.
Proof.
  assert (Hc : (-1 <= 9)%Z) by lia.
  assert (Hp : (-1 <= 0)%Z) by lia.
  assert (Hx : (0 <= 8000)%Z) by lia.
  assert (H3 : (3000 <= 8000)%Z) by lia.
  repeat (split; [assumption | ]).
  exact (proj1 (context_boost_cap 9 0 0 8000 Hc Hp Hx) H3).
Defined.

(** Where the mention is scored, more upvotes, on the comment or on the
    post, or a longer snippet never lower the score; with a non-negative
    comment count, a greater age is scored too and strictly lower. *)
Theorem mention_score_monotone (c c' p p' : Z) (a a' : R) (x x' : Z) :
  (-1 <= c <= c')%Z -> (-1 <= p <= p')%Z -> (0 <= x <= x')%Z ->
  ~ overflows a 45 ->
  exists v v',
    mention_score c p a x = Ok v /\ mention_score c' p' a x' = Ok v'
    /\ v <= v'
    /\ ((0 <= c')%Z -> a < a' ->
        exists w, mention_score c' p' a' x' = Ok w /\ w < v').
Proof.
  intros Hc Hp Hx Ho.
  exists (score_spec c p a x), (score_spec c' p' a x').
  rewrite !mention_score_ok by (lia || exact Ho).
  repeat (split; [reflexivity | ]).
  unfold score_spec.
  pose proof (decay_spec_pos a 45) as Hd.
  pose proof (context_boost_bounds x (proj1 Hx)) as Hb.
  assert (Hx' : (0 <= x')%Z) by lia.
  pose proof (context_boost_bounds x' Hx') as Hb'.
  assert (Hbb : Rmin 0.3 (IZR x / 10000) <= Rmin 0.3 (IZR x' / 10000)).
  { apply Rle_min_compat_l.
    assert (IZR x <= IZR x') by (apply IZR_le; lia). lra. }
  assert (Hsc : sqrt (IZR c + 1) <= sqrt (IZR c' + 1)).
  { apply sqrt_le_1_alt. assert (IZR c <= IZR c') by (apply IZR_le; lia). lra. }
  assert (Hsp : sqrt (IZR p + 1) <= sqrt (IZR p' + 1)).
  { apply sqrt_le_1_alt. assert (IZR p <= IZR p') by (apply IZR_le; lia). lra. }
  pose proof (upvote_weight_nonneg c p) as Hw.
  split.
  - apply Rmult_le_compat; try lra.
    + apply Rmult_le_pos; lra.
    + apply Rmult_le_compat_r; lra.
  - intros Hc' Ha.
    assert (Ho' : ~ overflows a' 45)
      by (apply (no_overflow_later a a' 45); [lra | lra | exact Ho]).
    exists (score_spec c' p' a' x').
    rewrite mention_score_ok by (lia || exact Ho').
    split; [reflexivity | ]. unfold score_spec.
    assert (Hpos : 0 < sqrt (IZR c' + 1)).
    { apply sqrt_lt_R0. assert (0 <= IZR c') by (apply IZR_le; lia). lra. }
    pose proof (sqrt_pos (IZR p' + 1)) as Hsp'.
    pose proof (decay_spec_decreasing 45 a a') as Hdec.
    assert (Hlt : decay_spec a' 45 < decay_spec a 45) by (apply Hdec; lra).
    apply Rmult_lt_compat_r; [lra | ].
    apply Rmult_lt_compat_l; [lra | exact Hlt].
Qed.

Lemma mention_score_monotone_witness :
  (-1 <= 3 <= 40)%Z /\ (-1 <= 0 <= 5)%Z /\ (0 <= 10 <= 120)%Z
  /\ ~ overflows 30 45
  /\ exists v v',
       mention_score 3 0 30 10 = Ok v /\ mention_score 40 5 30 120 = Ok v'
       /\ v <= v'.
Proof.
  assert (Hc : (-1 <= 3 <= 40)%Z) by lia.
  assert (Hp : (-1 <= 0 <= 5)%Z) by lia.
  assert (Hx : (0 <= 10 <= 120)%Z) by lia.
  assert (Ho : ~ overflows 30 45) by (apply no_overflow_near; lra).
  repeat (split; [assumption | ]).
  destruct (mention_score_monotone 3 40 0 5 30 60 10 120 Hc Hp Hx Ho)
    as (v & v' & E & E' & Hle & _).
  exists v, v'. repeat split; assumption.
Defined.

(** A mention without a single upvote still counts: for non-negative
    counts, where the mention is scored, the score is at least 1.3 times
    the decay factor. *)
Theorem mention_score_floor (c p : Z) (a : R) (x : Z) :
  (0 <= c)%Z -> (0 <= p)%Z -> (0 <= x)%Z -> ~ overflows a 45 ->
  exists v d,
    mention_score c p a x = Ok v
    /\ recency_decay a (IZR HALF_LIFE_DAYS) = Ok d
    /\ 0 < 1.3 * d <= v.
Proof.
  intros Hc Hp Hx Ho.
  exists (score_spec c p a x), (decay_spec a 45).
  rewrite mention_score_ok by (lia || exact Ho).
  unfold HALF_LIFE_DAYS.
  rewrite recency_decay_ok, decay_spec_eq by (lra || exact Ho).
  split; [reflexivity | split; [reflexivity | ]].
  rewrite <- decay_spec_eq. unfold score_spec.
  pose proof (decay_spec_pos a 45) as Hd.
  pose proof (context_boost_bounds x Hx) as Hb.
  assert (H1 : 1 <= sqrt (IZR c + 1)).
  { rewrite <- sqrt_1 at 1. apply sqrt_le_1_alt.
    assert (0 <= IZR c) by (apply IZR_le; lia). lra. }
  assert (H2 : 1 <= sqrt (IZR p + 1)).
  { rewrite <- sqrt_1 at 1. apply sqrt_le_1_alt.
    assert (0 <= IZR p) by (apply IZR_le; lia). lra. }
  split; [lra | ].
  assert (Hwd : 1.3 * decay_spec a 45
                <= (sqrt (IZR c + 1) + 0.3 * sqrt (IZR p + 1))
                   * decay_spec a 45) by nra.
  assert (Hnn : 0 <= (sqrt (IZR c + 1) + 0.3 * sqrt (IZR p + 1))
                     * decay_spec a 45) by nra.
  nra.
Qed.

Lemma mention_score_floor_witness :
  (0 <= 0)%Z /\ (0 <= 0)%Z /\ (0 <= 0)%Z /\ ~ overflows 400 45
  /\ exists v d,
       mention_score 0 0 400 0 = Ok v
       /\ recency_decay 400 (IZR HALF_LIFE_DAYS) = Ok d
       /\ 0 < 1.3 * d <= v.
Proof.
  assert (H0 : (0 <= 0)%Z) by lia.
  assert (Ho : ~ overflows 400 45) by (apply no_overflow_near; lra).
  repeat (split; [exact H0 | ]).
  split; [exact Ho | ].
  exact (mention_score_floor 0 0 400 0 H0 H0 H0 Ho).
Defined.

End ScoreProperties.

(** ** The aggregate that [compute_restaurant_scores] returns *)

Lemma len_filter_le {A} (f : A -> bool) (l : list A) :
  0 <= len (filter f l) <= len l.
Proof.
  unfold len. pose proof (filter_length_le f l). lia.
Qed.

Lemma len_set_bounds (l : list string) :
  l <> [] -> 1 <= len_set l <= len l.
Proof.
  intros Hne. unfold len_set, len.
  assert (Hle : (List.length (nodup string_dec l) <= List.length l)%nat).
  { clear Hne. induction l as [| x l IH]; cbn; [lia | ].
    destruct (in_dec string_dec x l); cbn; lia. }
  assert (Hpos : (1 <= List.length (nodup string_dec l))%nat).
  { destruct l as [| x l]; [congruence | ].
    assert (Hin : In x (nodup string_dec (x :: l)))
      by (apply nodup_In; left; reflexivity).
    destruct (nodup string_dec (x :: l)); [inversion Hin | cbn; lia]. }
  lia.
Qed.

Lemma fold_max_spec (l : list Z) (x : Z) :
  In (fold_left Z.max l x) (x :: l)
  /\ forall y, In y (x :: l) -> y <= fold_left Z.max l x.
Proof.
  revert x. induction l as [| z l IH]; intros x.
  - cbn. split; [left; reflexivity | intros y [<- | []]; lia].
  - cbn [fold_left]. destruct (IH (Z.max x z)) as [Hin Hub]. split.
    + destruct Hin as [E | Hin].
      * rewrite <- E.
        destruct (Z.max_spec x z) as [[_ ->] | [_ ->]];
          [right; left | left]; reflexivity.
      * right. right. exact Hin.
    + intros y Hy.
      assert (Hm : Z.max x z <= fold_left Z.max l (Z.max x z))
        by (apply Hub; left; reflexivity).
      destruct Hy as [<- | [<- | Hy]]; [lia | lia | ].
      apply Hub. right. exact Hy.
Qed.

(** The integer fields.  A returned aggregate carries the place id it was
    asked for, counts every mention, has between one and that many unique
    threads and between zero and that many recent mentions, passes the
    evidence rule on its own fields, and holds between one and three
    snippets, three whenever the group has three mentions. *)
Theorem aggregate_counts (p : string) (ms : list Mention.t) (c : Clock)
  (agg : Aggregate.t) :
  fst (compute_restaurant_scores p ms c) = Ok (Some agg) ->
  Aggregate.place_id agg = p
  /\ Aggregate.total_mentions agg = len ms
  /\ 1 <= Aggregate.unique_threads agg <= Aggregate.total_mentions agg
  /\ 0 <= Aggregate.mentions_90d agg <= Aggregate.total_mentions agg
  /\ Aggregate.total_upvotes agg = fold_right Z.add 0 (map Mention.score ms)
  /\ (MIN_THREADS <= Aggregate.unique_threads agg
      \/ MIN_TOTAL_UPVOTES <= Aggregate.total_upvotes agg)
  /\ List.length (Aggregate.top_snippets agg)
     = Nat.min 3 (List.length ms)
  /\ (1 <= List.length (Aggregate.top_snippets agg) <= 3)%nat.
Proof.
  intros Hagg.
  destruct (compute_some_inv p ms c agg Hagg)
    as (Hacc & _ & m & rest & Hms & ->).
  cbn [Aggregate.place_id Aggregate.total_mentions Aggregate.unique_threads
       Aggregate.mentions_90d Aggregate.total_upvotes Aggregate.top_snippets].
  split; [reflexivity | split; [reflexivity | ]].
  split.
  { unfold uniqueThreadCount.
    replace (len ms) with (len (map Mention.post_id ms))
      by (unfold len; rewrite length_map; reflexivity).
    apply len_set_bounds. rewrite Hms. discriminate. }
  split; [apply len_filter_le | ].
  split.
  { unfold totalUpvotes, sum. rewrite <- fold_left_rev_right.
    rewrite <- (fold_symmetric Z.add Z.add_assoc) by (intros; lia).
    rewrite fold_left_rev_right. reflexivity. }
  split; [apply accept_true_iff; exact Hacc | ].
  assert (Hlen : List.length (top_snippets ms) = Nat.min 3 (List.length ms)).
  { unfold top_snippets, top_mentions.
    rewrite length_map, length_firstn.
    rewrite (Permutation_length (sorted_reverse_perm Mention.score ms)).
    reflexivity. }
  split; [exact Hlen | ].
  rewrite Hlen, Hms. cbn [List.length]. lia.
Qed.

Lemma compute_some_exists (p : string) (ms : list Mention.t) (c : Clock) :
  accepted ms = true -> Forall (scorable_at (c 0%nat)) ms ->
  exists agg, fst (compute_restaurant_scores p ms c) = Ok (Some agg).
Proof.
  intros Hacc Hsc.
  assert (Hne : ms <> []) by (intros ->; discriminate Hacc).
  destruct (compute_present p ms c Hne Hacc Hsc) as (agg & E & _).
  exists agg. rewrite E. reflexivity.
Qed.

Lemma mixed_ages_scored :
  exists agg,
    fst (compute_restaurant_scores "p" mixed_ages (frozen (day 100)))
    = Ok (Some agg).
Proof.
  apply compute_some_exists; [reflexivity | scorable_at_list].
Qed.

Lemma aggregate_counts_witness :
  exists agg,
    fst (compute_restaurant_scores "p" mixed_ages (frozen (day 100)))
    = Ok (Some agg)
    /\ Aggregate.total_mentions agg = 2
    /\ 1 <= Aggregate.unique_threads agg <= Aggregate.total_mentions agg.
Proof.
  destruct mixed_ages_scored as [agg E]. exists agg.
  split; [exact E | ].
  destruct (aggregate_counts "p" mixed_ages (frozen (day 100)) agg E)
    as (_ & Hn & Hu & _).
  split; [exact Hn | exact Hu].
Defined.

(** The scores and the recent count.  [iconic_score] is the rounded sum
    of the scores of all mentions, [trending_score] the rounded sum over
    the mentions whose age in whole days is at most 90, [mentions_90d] the
    number of those; the age is measured from the one reading of the
    clock, and each summand is what [mention_score] returns. *)
Theorem aggregate_totals (p : string) (ms : list Mention.t) (c : Clock)
  (agg : Aggregate.t) :
  fst (compute_restaurant_scores p ms c) = Ok (Some agg) ->
  let now := c 0%nat in
  let recent := filter (in_window now) ms in
  Aggregate.iconic_score agg = round2 (total (map (score_at now) ms))
  /\ Aggregate.trending_score agg = round2 (total (map (score_at now) recent))
  /\ Aggregate.mentions_90d agg = len recent
  /\ (forall m, In m ms ->
        mention_score (Mention.score m)
          (get_default (Mention.post_upvotes m) 0)
          (IZR (timedelta_days (now - Mention.timestamp m)))
          (len_str (Mention.snippet m))
        = Ok (score_at now m)).
Proof.
  intros Hagg now recent.
  destruct (compute_some_inv p ms c agg Hagg)
    as (_ & Hsc & m & rest & _ & ->).
  repeat (split; [reflexivity | ]).
  intros m' Hin. rewrite Forall_forall in Hsc.
  destruct (Hsc m' Hin) as [[Hc Hp] Ho].
  apply mention_score_ok; assumption.
Qed.

Lemma aggregate_totals_witness :
  exists agg,
    fst (compute_restaurant_scores "p" mixed_ages (frozen (day 100)))
    = Ok (Some agg)
    /\ Aggregate.mentions_90d agg = 1.
Proof.
  destruct mixed_ages_scored as [agg E]. exists agg.
  split; [exact E | ].
  destruct (aggregate_totals "p" mixed_ages (frozen (day 100)) agg E)
    as (_ & _ & Hn & _).
  rewrite Hn. reflexivity.
Defined.

(** [last_seen] is the timestamp of one of the mentions, and none is
    later. *)
Theorem last_seen_latest (p : string) (ms : list Mention.t) (c : Clock)
  (agg : Aggregate.t) :
  fst (compute_restaurant_scores p ms c) = Ok (Some agg) ->
  In (Aggregate.last_seen agg) (map Mention.timestamp ms)
  /\ forall m, In m ms -> Mention.timestamp m <= Aggregate.last_seen agg.
Proof.
  intros Hagg.
  destruct (compute_some_inv p ms c agg Hagg)
    as (_ & _ & m & rest & -> & ->).
  cbn [Aggregate.last_seen map].
  destruct (fold_max_spec (map Mention.timestamp rest) (Mention.timestamp m))
    as [Hin Hub].
  split; [exact Hin | ].
  intros m' Hm'. apply Hub.
  change (In (Mention.timestamp m') (map Mention.timestamp (m :: rest))).
  apply in_map. exact Hm'.
Qed.

Lemma last_seen_latest_witness :
  exists agg,
    fst (compute_restaurant_scores "p" mixed_ages (frozen (day 100)))
    = Ok (Some agg)
    /\ In (Aggregate.last_seen agg) (map Mention.timestamp mixed_ages).
Proof.
  destruct mixed_ages_scored as [agg E]. exists agg.
  split; [exact E | ].
  exact (proj1 (last_seen_latest "p" mixed_ages (frozen (day 100)) agg E)).
Defined.

(** ** The trending window *)

(** The window is measured in whole days, rounded down: a mention is
    recent until it is 91 full days old, and a mention dated after the
    reading of the clock has a negative age and is always recent. *)
Theorem window_boundary (now : datetime) (m : Mention.t) :
  (in_window now m = true
   <-> now - Mention.timestamp m < 91 * MICROSECONDS_PER_DAY)
  /\ (now < Mention.timestamp m ->
      age_days_at now m < 0 /\ in_window now m = true).
Proof.
  unfold in_window, age_days_at, timedelta_days, TRENDING_WINDOW_DAYS,
    MICROSECONDS_PER_DAY.
  assert (Hiff : forall d,
            d / 86400000000 <= 90 <-> d < 91 * 86400000000).
  { intros d. split; intros H.
    - apply Z.nle_gt. intros Hge.
      assert (91 <= d / 86400000000) by (apply Z.div_le_lower_bound; lia).
      lia.
    - assert (d / 86400000000 < 91)
        by (apply Z.div_lt_upper_bound; lia).
      lia. }
  split.
  - rewrite Z.leb_le. apply Hiff.
  - intros Hfut.
    assert (Hneg : (now - Mention.timestamp m) / 86400000000 < 0)
      by (apply Z.div_lt_upper_bound; lia).
    split; [exact Hneg | ]. apply Z.leb_le. lia.
Qed.

Lemma window_boundary_witness :
  day 3 < Mention.timestamp (mention_at "t3_a" "t1_x" 4 (day 3 + 1))
  /\ age_days_at (day 3) (mention_at "t3_a" "t1_x" 4 (day 3 + 1)) < 0
  /\ in_window (day 3) (mention_at "t3_a" "t1_x" 4 (day 3 + 1)) = true.
Proof.
  assert (H : day 3 < Mention.timestamp
                        (mention_at "t3_a" "t1_x" 4 (day 3 + 1)))
    by reflexivity.
  split; [exact H | ].
  exact (proj2 (window_boundary (day 3)
                  (mention_at "t3_a" "t1_x" 4 (day 3 + 1))) H).
Defined.

(** When every mention is recent, the two scores coincide and all
    mentions are counted as recent; when none is, the trending score and
    the recent count are zero. *)
Theorem window_extremes (p : string) (ms : list Mention.t) (c : Clock)
  (agg : Aggregate.t) :
  fst (compute_restaurant_scores p ms c) = Ok (Some agg) ->
  ((forall m, In m ms -> in_window (c 0%nat) m = true) ->
   Aggregate.trending_score agg = Aggregate.iconic_score agg
   /\ Aggregate.mentions_90d agg = Aggregate.total_mentions agg)
  /\ ((forall m, In m ms -> in_window (c 0%nat) m = false) ->
      Aggregate.trending_score agg = 0%R
      /\ Aggregate.mentions_90d agg = 0).
Proof.
  intros Hagg.
  destruct (compute_some_inv p ms c agg Hagg)
    as (_ & _ & m & rest & _ & ->).
  cbn [Aggregate.trending_score Aggregate.iconic_score
       Aggregate.mentions_90d Aggregate.total_mentions].
  split; intros Hall.
  - assert (E : filter (in_window (c 0%nat)) ms = ms).
    { clear - Hall. induction ms as [| x l IH]; [reflexivity | ].
      cbn [filter]. rewrite (Hall x) by (left; reflexivity).
      rewrite IH; [reflexivity | ].
      intros y Hy. apply Hall. right. exact Hy. }
    rewrite E. split; reflexivity.
  - assert (E : filter (in_window (c 0%nat)) ms = []).
    { clear - Hall. induction ms as [| x l IH]; [reflexivity | ].
      cbn [filter]. rewrite (Hall x) by (left; reflexivity).
      apply IH. intros y Hy. apply Hall. right. exact Hy. }
    rewrite E. split; [ | reflexivity].
    cbn [map]. unfold total. cbn [fold_left].
    unfold round2, round_half_even.
    assert (Hz : Int_part (0 * 100) = 0).
    { symmetry. apply Int_part_spec. cbn [IZR]. lra. }
    rewrite Hz.
    destruct (Rlt_dec (0 * 100 - IZR 0) (1 / 2)) as [_ | N];
      [cbn [IZR]; lra | exfalso; apply N; cbn [IZR]; lra].
Qed.

Lemma window_extremes_witness :
  (forall m, In m two_threads -> in_window (day 200) m = false)
  /\ exists agg,
       fst (compute_restaurant_scores "p" two_threads (frozen (day 200)))
       = Ok (Some agg)
       /\ Aggregate.trending_score agg = 0%R.
Proof.
  assert (Hold : forall m, In m two_threads -> in_window (day 200) m = false).
  { intros m [<- | [<- | []]]; reflexivity. }
  split; [exact Hold | ].
  destruct (compute_some_exists "p" two_threads (frozen (day 200)))
    as [agg E]; [reflexivity | scorable_at_list | ].
  exists agg. split; [exact E | ].
  exact (proj1 (proj2 (window_extremes "p" two_threads (frozen (day 200))
                         agg E) Hold)).
Defined.

(** ** Rounding of the scores *)

Section RoundingProperties.
Local Open Scope R_scope.

Lemma round_half_even_near (y : R) :
  - (1 / 2) <= IZR (round_half_even y) - y <= 1 / 2.
Proof.
  unfold round_half_even.
  destruct (base_Int_part y) as [Hlo Hhi].
  set (f := Int_part y) in *.
  destruct (Rlt_dec (y - IZR f) (1 / 2)) as [Hd | Hd].
  - lra.
  - destruct (Rlt_dec (1 / 2) (y - IZR f)) as [Hd' | Hd'].
    + rewrite plus_IZR. lra.
    + destruct (Z.even f); [ | rewrite plus_IZR]; lra.
Qed.

Lemma round2_near (x : R) : Rabs (round2 x - x) <= 0.005.
Proof.
  unfold round2. pose proof (round_half_even_near (x * 100)) as H.
  apply Rabs_le. lra.
Qed.

Lemma round2_nonneg (x : R) : 0 <= x -> 0 <= round2 x.
Proof.
  intros Hx. unfold round2.
  assert (H0 : (0 <= Int_part (x * 100))%Z).
  { replace 0%Z with (Int_part 0).
    - apply Int_part_le. lra.
    - symmetry. apply Int_part_spec. cbn [IZR]. lra. }
  pose proof (round_half_even_bounds (x * 100)) as [Hb _].
  assert (H : (0 <= round_half_even (x * 100))%Z) by lia.
  apply IZR_le in H. lra.
Qed.

Lemma fold_left_Rplus_nonneg (l : list R) (i : R) :
  Forall (fun s => 0 <= s) l -> i <= fold_left Rplus l i.
Proof.
  intros H. revert i.
  induction H as [| s l Hs Hl IH]; intros i; cbn [fold_left]; [lra | ].
  specialize (IH (i + s)). lra.
Qed.

Lemma total_scores_nonneg (now : datetime) (l : list Mention.t) :
  0 <= total (map (score_at now) l).
Proof.
  unfold total. apply fold_left_Rplus_nonneg.
  apply Forall_forall. intros s Hs. apply in_map_iff in Hs.
  destruct Hs as (m & <- & _). apply score_spec_nonneg, len_str_nonneg.
Qed.

(** Both scores are non-negative, and each lies within half a hundredth
    of the sum it rounds. *)
Theorem scores_rounded (p : string) (ms : list Mention.t) (c : Clock)
  (agg : Aggregate.t) :
  fst (compute_restaurant_scores p ms c) = Ok (Some agg) ->
  let now := c 0%nat in
  0 <= Aggregate.trending_score agg
  /\ 0 <= Aggregate.iconic_score agg
  /\ Rabs (Aggregate.iconic_score agg - total (map (score_at now) ms))
     <= 0.005
  /\ Rabs (Aggregate.trending_score agg
           - total (map (score_at now) (filter (in_window now) ms)))
     <= 0.005.
Proof.
  intros Hagg now.
  destruct (compute_some_inv p ms c agg Hagg)
    as (_ & _ & m & rest & _ & ->).
  cbn [Aggregate.trending_score Aggregate.iconic_score].
  split; [apply round2_nonneg, total_scores_nonneg | ].
  split; [apply round2_nonneg, total_scores_nonneg | ].
  split; apply round2_near.
Qed.

Lemma scores_rounded_witness :
  exists agg,
    fst (compute_restaurant_scores "p" mixed_ages (frozen (day 100)))
    = Ok (Some agg)
    /\ 0 <= Aggregate.trending_score agg.
Proof.
  destruct mixed_ages_scored as [agg E]. exists agg.
  split; [exact E | ].
  exact (proj1 (scores_rounded "p" mixed_ages (frozen (day 100)) agg E)).
Defined.

End RoundingProperties.

(** ** The choice of the top snippets *)

Lemma StronglySorted_app_cross {A} (R : A -> A -> Prop) (l1 l2 : list A) :
  StronglySorted R (l1 ++ l2) ->
  forall a b, In a l1 -> In b l2 -> R a b.
Proof.
  induction l1 as [| x l1 IH]; intros H a b Ha Hb; [inversion Ha | ].
  cbn in H. apply StronglySorted_inv in H. destruct H as [Hs Hx].
  destruct Ha as [<- | Ha].
  - rewrite Forall_forall in Hx. apply Hx, in_or_app. right. exact Hb.
  - apply IH; assumption.
Qed.

(** The mentions that are left out have no more upvotes than any mention
    that is shown, the shown and the left-out mentions together are the
    group, and the first snippet carries the highest upvote count of the
    group. *)
Theorem top_mentions_dominate (ms : list Mention.t) :
  exists rest,
    Permutation (top_mentions ms ++ rest) ms
    /\ (forall a b, In a (top_mentions ms) -> In b rest ->
          Mention.score b <= Mention.score a)
    /\ (forall s m, hd_error (top_snippets ms) = Some s -> In m ms ->
          Mention.score m <= Snippet.score s).
Proof.
  set (ranked := sorted_reverse Mention.score ms).
  exists (skipn 3 ranked).
  assert (Hperm : Permutation ranked ms) by apply sorted_reverse_perm.
  assert (Hsorted : StronglySorted (desc_by Mention.score) ranked)
    by apply sorted_reverse_sorted.
  unfold top_snippets, top_mentions. fold ranked.
  split; [rewrite firstn_skipn; exact Hperm | split].
  - intros a b Ha Hb.
    rewrite <- (firstn_skipn 3 ranked) in Hsorted.
    exact (StronglySorted_app_cross _ _ _ Hsorted a b Ha Hb).
  - intros s m Hs Hm.
    apply (Permutation_in m (Permutation_sym Hperm)) in Hm.
    destruct ranked as [| x l]; [inversion Hm | ].
    cbn in Hs. injection Hs as <-. cbn [snippet_of Snippet.score].
    apply StronglySorted_inv in Hsorted. destruct Hsorted as [_ Hx].
    destruct Hm as [<- | Hm]; [lia | ].
    rewrite Forall_forall in Hx. exact (Hx m Hm).
Qed.

Lemma top_mentions_dominate_witness :
  exists s,
    hd_error (top_snippets (ranked_example 1 2 3 4)) = Some s
    /\ In (mention_at "t3_a" "t1_w" 5 1) (ranked_example 1 2 3 4)
    /\ 5 <= Snippet.score s.
Proof.
  destruct (top_mentions_dominate (ranked_example 1 2 3 4))
    as (rest & _ & _ & H).
  eexists. split; [reflexivity | ].
  assert (Hin : In (mention_at "t3_a" "t1_w" 5 1) (ranked_example 1 2 3 4))
    by (left; reflexivity).
  split; [exact Hin | ].
  exact (H _ _ eq_refl Hin).
Defined.

(** ** Independence of the order of the mentions *)

Lemma nodup_length_perm (l l' : list string) :
  Permutation l l' ->
  List.length (nodup string_dec l) = List.length (nodup string_dec l').
Proof.
  intros H. apply Permutation_length, NoDup_Permutation.
  - apply NoDup_nodup.
  - apply NoDup_nodup.
  - intros x. rewrite !nodup_In. split; apply Permutation_in;
      [exact H | apply Permutation_sym; exact H].
Qed.

Lemma sum_cons (x : Z) (l : list Z) : sum (x :: l) = x + sum l.
Proof.
  unfold sum. cbn [fold_left].
  assert (H : forall l a b, fold_left Z.add l (a + b) = a + fold_left Z.add l b).
  { clear. induction l as [| y l IH]; intros a b; cbn [fold_left];
      [reflexivity | ].
    rewrite <- Z.add_assoc. apply IH. }
  rewrite <- H. f_equal. lia.
Qed.

Lemma sum_perm (l l' : list Z) : Permutation l l' -> sum l = sum l'.
Proof.
  induction 1 as [| x l l' _ IH | x y l | l l' l'' _ IH1 _ IH2].
  - reflexivity.
  - rewrite !sum_cons, IH. reflexivity.
  - rewrite !sum_cons. lia.
  - rewrite IH1. exact IH2.
Qed.

Lemma filter_perm {A} (f : A -> bool) (l l' : list A) :
  Permutation l l' -> Permutation (filter f l) (filter f l').
Proof.
  induction 1 as [| x l l' _ IH | x y l | l l' l'' _ IH1 _ IH2]; cbn.
  - apply perm_nil.
  - destruct (f x); [apply perm_skip | ]; exact IH.
  - destruct (f x), (f y);
      try apply Permutation_refl; apply perm_swap.
  - eapply perm_trans; eassumption.
Qed.

Lemma desc_sorted_unique (l l' : list Z) :
  StronglySorted (fun a b => b <= a) l ->
  StronglySorted (fun a b => b <= a) l' ->
  Permutation l l' -> l = l'.
Proof.
  intros Hl. revert l'.
  induction Hl as [| x l Hl IH Hx]; intros l' Hl' Hp.
  - symmetry. apply Permutation_nil. exact Hp.
  - destruct Hl' as [| y l' Hl' Hy].
    + apply Permutation_sym, Permutation_nil in Hp. discriminate Hp.
    + assert (Hxy : x = y).
      { rewrite Forall_forall in Hx, Hy.
        assert (Hyin : In y (x :: l))
          by (apply (Permutation_in y (Permutation_sym Hp)); left; reflexivity).
        assert (Hxin : In x (y :: l'))
          by (apply (Permutation_in x Hp); left; reflexivity).
        destruct Hyin as [E | Hyin]; [exact E | ].
        destruct Hxin as [E | Hxin]; [symmetry; exact E | ].
        specialize (Hx y Hyin). specialize (Hy x Hxin). lia. }
      subst y. f_equal. apply IH; [exact Hl' | ].
      eapply Permutation_cons_inv. exact Hp.
Qed.

Lemma ranked_scores_sorted (ms : list Mention.t) :
  StronglySorted (fun a b => b <= a)
    (map Mention.score (sorted_reverse Mention.score ms)).
Proof.
  pose proof (sorted_reverse_sorted Mention.score ms) as H.
  induction H as [| x l Hl IH Hx]; cbn [map]; constructor.
  - exact IH.
  - rewrite Forall_forall in *. intros k Hk.
    apply in_map_iff in Hk. destruct Hk as (m & <- & Hm).
    exact (Hx m Hm).
Qed.

Lemma top_snippet_scores (ms : list Mention.t) :
  map Snippet.score (top_snippets ms)
  = firstn 3 (map Mention.score (sorted_reverse Mention.score ms)).
Proof.
  unfold top_snippets, top_mentions.
  rewrite map_map, firstn_map. reflexivity.
Qed.

(** The rows of a place come from the database in no particular order.
    Reordering the mentions of a group changes neither whether the result
    is [None], an aggregate or an exception, nor, between two aggregates,
    the counts, the total upvotes, [last_seen] or the upvote counts of the
    top snippets.  Which exception is raised can depend on the order. *)
Theorem order_independence (p : string) (ms ms' : list Mention.t)
  (c : Clock) :
  Permutation ms ms' ->
  (fst (compute_restaurant_scores p ms c) = Ok None
   <-> fst (compute_restaurant_scores p ms' c) = Ok None)
  /\ ((exists e, fst (compute_restaurant_scores p ms c) = Raise e)
      <-> (exists e, fst (compute_restaurant_scores p ms' c) = Raise e))
  /\ (forall agg agg',
        fst (compute_restaurant_scores p ms c) = Ok (Some agg) ->
        fst (compute_restaurant_scores p ms' c) = Ok (Some agg') ->
        Aggregate.unique_threads agg = Aggregate.unique_threads agg'
        /\ Aggregate.total_mentions agg = Aggregate.total_mentions agg'
        /\ Aggregate.total_upvotes agg = Aggregate.total_upvotes agg'
        /\ Aggregate.mentions_90d agg = Aggregate.mentions_90d agg'
        /\ Aggregate.last_seen agg = Aggregate.last_seen agg'
        /\ map Snippet.score (Aggregate.top_snippets agg)
           = map Snippet.score (Aggregate.top_snippets agg')).
Proof.
  intros Hp.
  assert (Hu : uniqueThreadCount ms = uniqueThreadCount ms').
  { unfold uniqueThreadCount, len_set. f_equal.
    apply nodup_length_perm, Permutation_map, Hp. }
  assert (Ht : totalUpvotes ms = totalUpvotes ms').
  { unfold totalUpvotes. apply sum_perm, Permutation_map, Hp. }
  assert (Hacc : accepted ms = accepted ms')
    by (unfold accepted; rewrite Hu, Ht; reflexivity).
  assert (Hsc : Forall (scorable_at (c 0%nat)) ms
                <-> Forall (scorable_at (c 0%nat)) ms').
  { split; apply Permutation_Forall;
      [exact Hp | apply Permutation_sym; exact Hp]. }
  assert (Hex : Exists (fun m => ~ scorable_at (c 0%nat) m) ms
                <-> Exists (fun m => ~ scorable_at (c 0%nat) m) ms').
  { rewrite !Exists_exists. split; intros (m & Hm & Hn); exists m;
      (split; [ | exact Hn]).
    - exact (Permutation_in m Hp Hm).
    - exact (Permutation_in m (Permutation_sym Hp) Hm). }
  assert (Hcase : forall l,
    (accepted l = false /\ fst (compute_restaurant_scores p l c) = Ok None)
    \/ (accepted l = true /\ Forall (scorable_at (c 0%nat)) l
        /\ exists agg, fst (compute_restaurant_scores p l c) = Ok (Some agg))
    \/ (accepted l = true /\ Exists (fun m => ~ scorable_at (c 0%nat) m) l
        /\ exists e, fst (compute_restaurant_scores p l c) = Raise e)).
  { intros l. destruct (accepted l) eqn:Hl.
    - right. destruct (all_or_exists (c 0%nat) l) as [Hs | He].
      + left. split; [reflexivity | split; [exact Hs | ]].
        apply compute_some_exists; assumption.
      + right. split; [reflexivity | split; [exact He | ]].
        destruct (compute_raises p l c Hl He) as (e & E & _).
        exists e. rewrite E. reflexivity.
    - left. split; [reflexivity | ].
      rewrite compute_rejected by exact Hl. reflexivity. }
  assert (Hboth : forall l l',
    accepted l = accepted l' ->
    (Forall (scorable_at (c 0%nat)) l -> Forall (scorable_at (c 0%nat)) l') ->
    (Exists (fun m => ~ scorable_at (c 0%nat) m) l ->
     Exists (fun m => ~ scorable_at (c 0%nat) m) l') ->
    (fst (compute_restaurant_scores p l c) = Ok None ->
     fst (compute_restaurant_scores p l' c) = Ok None)
    /\ ((exists e, fst (compute_restaurant_scores p l c) = Raise e) ->
        exists e, fst (compute_restaurant_scores p l' c) = Raise e)).
  { intros l l' Ha Hs He.
    destruct (Hcase l)
      as [[Al El] | [(Al & Sl & (a & El)) | (Al & Xl & (e & El))]];
      rewrite El; split; try discriminate;
      try (intros [e' He']; discriminate He').
    - intros _. rewrite compute_rejected; [reflexivity | ].
      fold (accepted l'). rewrite <- Ha. exact Al.
    - intros _.
      assert (Al' : accept (uniqueThreadCount l') (totalUpvotes l') = true)
        by (fold (accepted l'); rewrite <- Ha; exact Al).
      destruct (compute_raises p l' c Al' (He Xl)) as (e' & E' & _).
      exists e'. rewrite E'. reflexivity. }
  destruct (Hboth ms ms' Hacc (proj1 Hsc) (proj1 Hex)) as [N1 R1].
  destruct (Hboth ms' ms (eq_sym Hacc) (proj2 Hsc) (proj2 Hex)) as [N2 R2].
  split; [split; assumption | ].
  split; [split; assumption | ].
  intros agg agg' Hagg Hagg'.
  destruct (compute_some_inv p ms c agg Hagg)
    as (_ & _ & m & rest & Hms & ->).
  destruct (compute_some_inv p ms' c agg' Hagg')
    as (_ & _ & m' & rest' & Hms' & ->).
  cbn [Aggregate.unique_threads Aggregate.total_mentions
       Aggregate.total_upvotes Aggregate.mentions_90d Aggregate.last_seen
       Aggregate.top_snippets].
  split; [exact Hu | ].
  split; [unfold len; rewrite (Permutation_length Hp); reflexivity | ].
  split; [exact Ht | ].
  split.
  { unfold len. f_equal. apply Permutation_length, filter_perm, Hp. }
  split.
  { assert (Hpt : Permutation (map Mention.timestamp (m :: rest))
                    (map Mention.timestamp (m' :: rest'))).
    { rewrite <- Hms, <- Hms'. apply Permutation_map, Hp. }
    destruct (fold_max_spec (map Mention.timestamp rest)
                (Mention.timestamp m)) as [Hin Hub].
    destruct (fold_max_spec (map Mention.timestamp rest')
                (Mention.timestamp m')) as [Hin' Hub'].
    apply Z.le_antisymm.
    - apply Hub'. exact (Permutation_in _ Hpt Hin).
    - apply Hub. exact (Permutation_in _ (Permutation_sym Hpt) Hin'). }
  rewrite !top_snippet_scores. f_equal.
  apply desc_sorted_unique; try apply ranked_scores_sorted.
  apply Permutation_map.
  eapply perm_trans; [apply sorted_reverse_perm | ].
  eapply perm_trans; [exact Hp | ].
  apply Permutation_sym, sorted_reverse_perm.
Qed.

Lemma order_independence_witness :
  Permutation tie_group (rev tie_group)
  /\ (fst (compute_restaurant_scores "p" tie_group (frozen (day 7))) = Ok None
      <-> fst (compute_restaurant_scores "p" (rev tie_group) (frozen (day 7)))
          = Ok None).
Proof.
  assert (Hp : Permutation tie_group (rev tie_group)) by apply Permutation_rev.
  split; [exact Hp | ].
  exact (proj1 (order_independence "p" tie_group (rev tie_group)
                  (frozen (day 7)) Hp)).
Defined.

(** ** Grouping the rows by place *)

Lemma dict_get_append (d : Groups) (k k' : string) (m : Mention.t) :
  dict_get (dict_append d k' m) k
  = if String.eqb k k'
    then Some (get_default (dict_get d k') [] ++ [m])%list
    else dict_get d k.
Proof.
  induction d as [| [k0 ms0] d IH]; cbn [dict_append dict_get].
  - destruct (String.eqb k k'); reflexivity.
  - destruct (String.eqb_spec k' k0) as [-> | Hk'0]; cbn [dict_get].
    + destruct (String.eqb_spec k k0) as [-> | Hk0]; reflexivity.
    + destruct (String.eqb_spec k k0) as [-> | Hk0].
      * destruct (String.eqb_spec k0 k') as [<- | _];
          [congruence | reflexivity].
      * exact IH.
Qed.

Lemma keys_append (d : Groups) (k : string) (m : Mention.t) :
  map fst (dict_append d k m)
  = if in_dec string_dec k (map fst d) then map fst d
    else (map fst d ++ [k])%list.
Proof.
  induction d as [| [k0 ms0] d IH]; cbn [dict_append map fst].
  - destruct (in_dec string_dec k []) as [[] | _]. reflexivity.
  - destruct (String.eqb_spec k k0) as [-> | Hk0]; cbn [map fst].
    + destruct (in_dec string_dec k0 (k0 :: map fst d)) as [_ | N];
        [reflexivity | exfalso; apply N; left; reflexivity].
    + rewrite IH.
      destruct (in_dec string_dec k (map fst d)) as [Hin | Hnin];
        destruct (in_dec string_dec k (k0 :: map fst d)) as [Hin' | Hnin'];
        try reflexivity.
      * exfalso. apply Hnin'. right. exact Hin.
      * exfalso. destruct Hin' as [E | Hin']; [congruence | tauto].
Qed.

Lemma keys_append_nodup (d : Groups) (k : string) (m : Mention.t) :
  NoDup (map fst d) -> NoDup (map fst (dict_append d k m)).
Proof.
  intros H. rewrite keys_append.
  destruct (in_dec string_dec k (map fst d)) as [_ | Hnin]; [exact H | ].
  apply NoDup_app; [exact H | repeat constructor; intros [] | ].
  intros x Hx [<- | []]. exact (Hnin Hx).
Qed.

Lemma concat_append_perm (d : Groups) (k : string) (m : Mention.t) :
  Permutation (List.concat (map snd (dict_append d k m)))
    (m :: List.concat (map snd d)).
Proof.
  induction d as [| [k0 ms0] d IH]; cbn [dict_append map snd List.concat].
  - apply Permutation_refl.
  - destruct (String.eqb k k0); cbn [map snd List.concat].
    + rewrite <- app_assoc. cbn [app].
      apply Permutation_sym, Permutation_middle.
    + eapply perm_trans; [apply Permutation_app_head, IH | ].
      apply Permutation_sym, Permutation_middle.
Qed.

Lemma dict_get_in (d : Groups) (k : string) (ms : list Mention.t) :
  NoDup (map fst d) -> (In (k, ms) d <-> dict_get d k = Some ms).
Proof.
  induction d as [| [k0 ms0] d IH]; cbn [map fst dict_get]; intros Hnd.
  - split; [intros [] | discriminate].
  - inversion Hnd as [| ? ? Hk0 Hd]; subst.
    destruct (String.eqb_spec k k0) as [-> | Hne].
    + split.
      * intros [E | Hin]; [injection E as <-; reflexivity | ].
        exfalso. apply Hk0. apply (in_map fst) in Hin. exact Hin.
      * intros E. injection E as <-. left. reflexivity.
    + rewrite <- (IH Hd). split.
      * intros [E | Hin]; [congruence | exact Hin].
      * intros Hin. right. exact Hin.
Qed.

Section GroupFold.
Local Abbreviation step :=
  (fun (d : Groups) (row : Row.t) =>
     dict_append d (Row.place_id row) (mention_of_row row)).

Lemma fold_keys_nodup (rows : list Row.t) (d : Groups) :
  NoDup (map fst d) -> NoDup (map fst (fold_left step rows d)).
Proof.
  revert d. induction rows as [| r rows IH]; intros d H; cbn [fold_left].
  - exact H.
  - apply IH, keys_append_nodup, H.
Qed.

Lemma fold_concat_perm (rows : list Row.t) (d : Groups) :
  Permutation (List.concat (map snd (fold_left step rows d)))
    (List.concat (map snd d) ++ map mention_of_row rows).
Proof.
  revert d. induction rows as [| r rows IH]; intros d; cbn [fold_left map].
  - rewrite app_nil_r. apply Permutation_refl.
  - eapply perm_trans; [apply IH | ].
    eapply perm_trans;
      [apply Permutation_app_tail, concat_append_perm | ].
    cbn [app]. apply Permutation_middle.
Qed.

Lemma fold_dict_get (rows : list Row.t) (d : Groups) (k : string) :
  dict_get (fold_left step rows d) k
  = match rows_of k rows with
    | [] => dict_get d k
    | rs => Some (get_default (dict_get d k) []
                    ++ map mention_of_row rs)%list
    end.
Proof.
  revert d. induction rows as [| r rows IH]; intros d.
  - reflexivity.
  - cbn [fold_left]. rewrite IH, dict_get_append.
    unfold rows_of. cbn [filter]. fold (rows_of k rows).
    rewrite (String.eqb_sym (Row.place_id r) k).
    destruct (String.eqb_spec k (Row.place_id r)) as [-> | Hne].
    + cbn [get_default map].
      destruct (rows_of (Row.place_id r) rows) as [| r' rs].
      * reflexivity.
      * rewrite <- app_assoc. reflexivity.
    + reflexivity.
Qed.
End GroupFold.

Lemma group_keys_nodup (rows : list Row.t) :
  NoDup (map fst (group_by_place rows)).
Proof. apply fold_keys_nodup. constructor. Qed.

Lemma group_get (rows : list Row.t) (k : string) :
  dict_get (group_by_place rows) k
  = match rows_of k rows with
    | [] => None
    | rs => Some (map mention_of_row rs)
    end.
Proof.
  unfold group_by_place. rewrite fold_dict_get.
  destruct (rows_of k rows); reflexivity.
Qed.

Lemma group_members (rows : list Row.t) (k : string) (ms : list Mention.t) :
  In (k, ms) (group_by_place rows)
  <-> ms <> [] /\ ms = map mention_of_row (rows_of k rows).
Proof.
  rewrite (dict_get_in _ k ms (group_keys_nodup rows)), group_get.
  destruct (rows_of k rows) as [| r rs]; cbn [map].
  - split; [discriminate | intros [Hne ->]; congruence].
  - split.
    + intros E. injection E as <-. split; [discriminate | reflexivity].
    + intros [_ ->]. reflexivity.
Qed.

(** Looking a place up in the grouping dict gives the mentions of its
    rows, in the order of the rows, and nothing for a place without a
    row; no place is listed twice, and no group is empty. *)
Theorem group_by_place_lookup (rows : list Row.t) :
  NoDup (map fst (group_by_place rows))
  /\ (forall k,
        dict_get (group_by_place rows) k
        = match rows_of k rows with
          | [] => None
          | rs => Some (map mention_of_row rs)
          end)
  /\ (forall k ms,
        In (k, ms) (group_by_place rows)
        <-> ms <> [] /\ ms = map mention_of_row (rows_of k rows)).
Proof.
  split; [apply group_keys_nodup | split].
  - apply group_get.
  - apply group_members.
Qed.

(** Grouping neither loses nor duplicates a row: the groups, put
    together, are the mentions of the rows, and their sizes add up to the
    number of rows. *)
Theorem group_by_place_partition (rows : list Row.t) :
  Permutation (List.concat (map snd (group_by_place rows)))
    (map mention_of_row rows)
  /\ fold_right Z.add 0 (map (fun g => len (snd g)) (group_by_place rows))
     = len rows.
Proof.
  assert (Hp : Permutation (List.concat (map snd (group_by_place rows)))
                 (map mention_of_row rows)).
  { unfold group_by_place. apply (fold_concat_perm rows []). }
  split; [exact Hp | ].
  apply Permutation_length in Hp. rewrite length_map in Hp.
  unfold len at 2. rewrite <- Hp.
  generalize (group_by_place rows). intros d.
  induction d as [| [k ms] d IH]; cbn [map snd List.concat fold_right].
  - reflexivity.
  - rewrite length_app, Nat2Z.inj_add, IH. reflexivity.
Qed.

(** ** The batch *)

Lemma scorable_at_scorable (now : datetime) (ms : list Mention.t) :
  Forall (scorable_at now) ms -> Forall scorable ms.
Proof.
  intros H. eapply Forall_impl; [ | exact H]. intros m [Hs _]. exact Hs.
Qed.

Lemma scorable_not_both (ms : list Mention.t) :
  Forall scorable ms -> ~ Exists (fun m => ~ scorable m) ms.
Proof.
  intros Hall Hex. rewrite Forall_forall in Hall.
  rewrite Exists_exists in Hex. destruct Hex as (m & Hin & Hn).
  exact (Hn (Hall m Hin)).
Qed.

Lemma all_scored_cons (c : Clock) (p : string) (ms : list Mention.t)
  (items : Groups) :
  all_scored c ((p, ms) :: items)
  <-> if accepted ms
      then Forall (scorable_at (c 0%nat)) ms /\ all_scored (advance c) items
      else all_scored c items.
Proof.
  unfold all_scored. cbn [filter snd].
  destruct (accepted ms); [ | reflexivity]. split.
  - intros H. split; [exact (H 0%nat (p, ms) eq_refl) | ].
    intros j g Hj. exact (H (S j) g Hj).
  - intros [H0 Ht] [| j] g Hj.
    + cbn in Hj. injection Hj as <-. exact H0.
    + exact (Ht j g Hj).
Qed.

(** When every accepted group can be scored at its reading, the loop
    appends one aggregate per accepted group, each computed at the next
    reading of the clock. *)
Lemma aggregate_groups_ok (items : Groups) :
  forall aggregations c,
  all_scored c items ->
  exists out c',
    aggregate_groups items aggregations c = (Ok (aggregations ++ out)%list, c')
    /\ (forall k, c' k = c (List.length out + k)%nat)
    /\ map Aggregate.place_id out
       = map fst (filter (fun g => accepted (snd g)) items)
    /\ (forall j g,
          nth_error (filter (fun g => accepted (snd g)) items) j = Some g ->
          exists agg,
            nth_error out j = Some agg
            /\ fst (compute_restaurant_scores (fst g) (snd g) (later j c))
               = Ok (Some agg)).
Proof.
  induction items as [| [p ms] items IH]; intros aggs c Hall.
  - exists [], c. cbn. rewrite app_nil_r.
    split; [reflexivity | split; [reflexivity | split; [reflexivity | ]]].
    intros [| j] g Hj; discriminate Hj.
  - apply all_scored_cons in Hall.
    cbn [aggregate_groups filter snd]. unfold run_bind.
    destruct (accepted ms) eqn:Ha.
    + destruct Hall as [Hs Hall].
      assert (Hne : ms <> []) by (intros ->; discriminate Ha).
      destruct (compute_present p ms c Hne Ha Hs) as (agg & E & _).
      rewrite E.
      destruct (IH (aggs ++ [agg])%list (advance c) Hall)
        as (out & c' & Eout & Hc' & Hids & Hnth).
      exists (agg :: out), c'.
      split; [rewrite Eout, <- app_assoc; reflexivity | ].
      split; [intros k; rewrite Hc'; reflexivity | ].
      split.
      { cbn [map fst]. rewrite Hids. f_equal.
        destruct (compute_some_inv p ms c agg) as (_ & _ & m & r & _ & ->);
          [rewrite E; reflexivity | reflexivity]. }
      intros [| j] g Hj.
      * cbn in Hj. injection Hj as <-. exists agg.
        split; [reflexivity | ]. cbn [fst snd].
        rewrite (compute_first_reading p ms (later 0 c) c) by reflexivity.
        rewrite E. reflexivity.
      * cbn [nth_error] in Hj. destruct (Hnth j g Hj) as (a & Ha' & Ea).
        exists a. split; [exact Ha' | ].
        rewrite (compute_first_reading _ _ (later (S j) c)
                   (later j (advance c))) by reflexivity.
        exact Ea.
    + rewrite compute_rejected by exact Ha. apply IH. exact Hall.
Qed.

(** Otherwise the loop stops at the first accepted group that cannot be
    scored at its reading. *)
Lemma aggregate_groups_cases (items : Groups) :
  forall aggregations c,
  all_scored c items
  \/ exists e,
       fst (aggregate_groups items aggregations c) = Raise e
       /\ (e = ValueError \/ e = OverflowError).
Proof.
  induction items as [| [p ms] items IH]; intros aggs c.
  - left. intros [| j] g Hj; discriminate Hj.
  - cbn [aggregate_groups]. unfold run_bind.
    destruct (accepted ms) eqn:Ha.
    + destruct (all_or_exists (c 0%nat) ms) as [Hs | Hex].
      * assert (Hne : ms <> []) by (intros ->; discriminate Ha).
        destruct (compute_present p ms c Hne Ha Hs) as (agg & E & _).
        rewrite E.
        destruct (IH (aggs ++ [agg])%list (advance c)) as [Hall | Hr].
        -- left. apply all_scored_cons. rewrite Ha. split; assumption.
        -- right. exact Hr.
      * right. destruct (compute_raises p ms c Ha Hex) as (e & E & Hk).
        exists e. rewrite E. split; [reflexivity | exact Hk].
    + rewrite compute_rejected by exact Ha.
      destruct (IH aggs c) as [Hall | Hr].
      * left. apply all_scored_cons. rewrite Ha. exact Hall.
      * right. exact Hr.
Qed.

Lemma poisoned_not_scored (c : Clock) (items : Groups) :
  Exists poisoned items -> ~ all_scored c items.
Proof.
  intros Hex Hall. apply Exists_exists in Hex.
  destruct Hex as (g & Hin & Hacc & Hbad).
  assert (Hg : In g (filter (fun g => accepted (snd g)) items))
    by (apply filter_In; split; assumption).
  apply In_nth_error in Hg. destruct Hg as [j Hj].
  exact (scorable_not_both _ (scorable_at_scorable _ _ (Hall j g Hj)) Hbad).
Qed.

Lemma near_rows_all_scored (rows : list Row.t) (c : Clock) :
  Forall (fun row => -1 <= Row.score row) rows ->
  (forall row n, In row rows -> Row.timestamp row - c n <= day 31000) ->
  all_scored c (group_by_place rows).
Proof.
  intros Hscore Hnear j [k ms] Hj. cbn [snd].
  apply nth_error_In in Hj. apply filter_In in Hj. destruct Hj as [Hin _].
  apply group_members in Hin. destruct Hin as [_ ->].
  apply Forall_forall. intros m Hm.
  apply in_map_iff in Hm. destruct Hm as (r & <- & Hr).
  apply filter_In in Hr. destruct Hr as [Hr _].
  rewrite Forall_forall in Hscore.
  apply scorable_at_near.
  - unfold scorable. cbn. specialize (Hscore r Hr). cbn in Hscore. lia.
  - unfold age_days_at, timedelta_days, mention_of_row.
    cbn [Mention.timestamp].
    specialize (Hnear r j Hr). unfold day in Hnear.
    apply Z.div_le_lower_bound; unfold MICROSECONDS_PER_DAY in *; lia.
Qed.

Lemma batch_result (rows : list Row.t) (c : Clock) :
  (all_scored c (group_by_place rows)
   /\ exists aggs, fst (recompute_all_scores rows c) = Ok aggs)
  \/ (~ all_scored c (group_by_place rows)
      /\ exists e, fst (recompute_all_scores rows c) = Raise e
                   /\ (e = ValueError \/ e = OverflowError)).
Proof.
  unfold recompute_all_scores.
  destruct (aggregate_groups_cases (group_by_place rows) [] c)
    as [Hall | (e & E & Hk)].
  - left. split; [exact Hall | ].
    destruct (aggregate_groups_ok _ [] c Hall) as (out & c' & E & _).
    exists out. rewrite E. reflexivity.
  - right. split; [ | exists e; split; assumption].
    intros Hall.
    destruct (aggregate_groups_ok _ [] c Hall) as (out & c' & E' & _).
    rewrite E' in E. discriminate E.
Qed.

(** The batch succeeds exactly when every place that passes the evidence
    rule can be scored at the reading of the clock taken for it: every
    upvote count at least -1 and no timestamp so far ahead that [math.exp]
    overflows.  Otherwise it raises, [ValueError] or [OverflowError] and
    nothing else, and no aggregate is produced for any place.  It raises
    in particular when an accepted place holds an upvote count below -1,
    and it succeeds in particular when no row has an upvote count below -1
    and no row is dated more than 31000 days after a reading of the
    clock. *)
Theorem batch_outcome (rows : list Row.t) (c : Clock) :
  ((exists aggs, fst (recompute_all_scores rows c) = Ok aggs)
   <-> all_scored c (group_by_place rows))
  /\ ((exists e, fst (recompute_all_scores rows c) = Raise e)
      <-> ~ all_scored c (group_by_place rows))
  /\ (forall e, fst (recompute_all_scores rows c) = Raise e ->
        e = ValueError \/ e = OverflowError)
  /\ (Exists poisoned (group_by_place rows) ->
      exists e, fst (recompute_all_scores rows c) = Raise e)
  /\ (Forall (fun row => -1 <= Row.score row) rows ->
      (forall row n, In row rows -> Row.timestamp row - c n <= day 31000) ->
      exists aggs, fst (recompute_all_scores rows c) = Ok aggs).
Proof.
  destruct (batch_result rows c)
    as [[Hall [aggs E]] | [Hno (e & E & Hk)]].
  - split; [split; [intros _; exact Hall | intros _; exists aggs; exact E] | ].
    split.
    { split.
      - intros [e He]. rewrite E in He. discriminate He.
      - intros Hno. contradiction. }
    split; [intros e He; rewrite E in He; discriminate He | ].
    split.
    { intros Hex. exfalso. exact (poisoned_not_scored c _ Hex Hall). }
    intros _ _. exists aggs. exact E.
  - split.
    { split.
      - intros [aggs Ha]. rewrite E in Ha. discriminate Ha.
      - intros Hall. contradiction. }
    split; [split; [intros _; exact Hno | intros _; exists e; exact E] | ].
    split.
    { intros e' He'. rewrite E in He'. injection He' as <-. exact Hk. }
    split; [intros _; exists e; exact E | ].
    intros Hscore Hnear. exfalso. apply Hno.
    apply near_rows_all_scored; assumption.
Qed.

Lemma sample_rows_near (n : nat) (row : Row.t) :
  In row sample_rows -> Row.timestamp row - ticking (day 9) n <= day 31000.
Proof.
  intros [<- | [<- | [<- | []]]]; cbn [Row.timestamp];
    unfold ticking, day, MICROSECONDS_PER_DAY; lia.
Qed.

Lemma batch_outcome_witness :
  Forall (fun row => -1 <= Row.score row) sample_rows
  /\ (forall row n, In row sample_rows ->
        Row.timestamp row - ticking (day 9) n <= day 31000)
  /\ (exists aggs,
        fst (recompute_all_scores sample_rows (ticking (day 9))) = Ok aggs)
  /\ Exists poisoned (group_by_place poisoned_rows)
  /\ exists e,
       fst (recompute_all_scores poisoned_rows (ticking (day 9))) = Raise e.
Proof.
  assert (Hrows : Forall (fun row => -1 <= Row.score row) sample_rows)
    by (repeat constructor; cbn; lia).
  assert (Hnear : forall row n, In row sample_rows ->
            Row.timestamp row - ticking (day 9) n <= day 31000)
    by (intros row n; apply sample_rows_near).
  assert (Hex : Exists poisoned (group_by_place poisoned_rows)).
  { apply Exists_cons_tl, Exists_cons_hd. split; [reflexivity | ].
    apply Exists_cons_tl, Exists_cons_hd. unfold scorable. cbn. lia. }
  split; [exact Hrows | split; [exact Hnear | ]].
  split.
  { exact (proj2 (proj2 (proj2 (proj2
             (batch_outcome sample_rows (ticking (day 9))))))
             Hrows Hnear). }
  split; [exact Hex | ].
  exact (proj1 (proj2 (proj2 (proj2
           (batch_outcome poisoned_rows (ticking (day 9)))))) Hex).
Defined.

Lemma keys_filter_nodup (f : string * list Mention.t -> bool) (d : Groups) :
  NoDup (map fst d) -> NoDup (map fst (filter f d)).
Proof.
  induction d as [| g d IH]; cbn [map filter]; intros H.
  - constructor.
  - inversion H as [| ? ? Hg Hd]; subst.
    destruct (f g); [ | exact (IH Hd)].
    cbn [map]. constructor; [ | exact (IH Hd)].
    intros Hin. apply Hg. apply in_map_iff in Hin.
    destruct Hin as (g' & E & Hg'). apply filter_In in Hg'.
    apply in_map_iff. exists g'. split; [exact E | apply Hg'].
Qed.

Lemma batch_run (rows : list Row.t) (c : Clock) (aggs : list Aggregate.t) :
  fst (recompute_all_scores rows c) = Ok aggs ->
  (forall k, snd (recompute_all_scores rows c) k = c (List.length aggs + k)%nat)
  /\ map Aggregate.place_id aggs
     = map fst (filter (fun g => accepted (snd g)) (group_by_place rows))
  /\ (forall j g,
        nth_error (filter (fun g => accepted (snd g)) (group_by_place rows)) j
        = Some g ->
        exists agg,
          nth_error aggs j = Some agg
          /\ fst (compute_restaurant_scores (fst g) (snd g) (later j c))
             = Ok (Some agg)).
Proof.
  intros Hok. unfold recompute_all_scores in *.
  destruct (aggregate_groups_cases (group_by_place rows) [] c)
    as [Hall | (e & E & _)].
  - destruct (aggregate_groups_ok _ [] c Hall)
      as (out & c' & E & Hc & Hids & Hn).
    rewrite E in Hok |- *. cbn [fst snd app] in *.
    injection Hok as <-.
    split; [exact Hc | split; [exact Hids | exact Hn]].
  - rewrite E in Hok. discriminate Hok.
Qed.

Lemma sample_rows_run :
  exists aggs,
    fst (recompute_all_scores sample_rows (ticking (day 9))) = Ok aggs
    /\ aggs <> [].
Proof.
  destruct (aggregate_groups_ok (group_by_place sample_rows) []
              (ticking (day 9)))
    as (out & c' & E & _ & Hids & _).
  { apply near_rows_all_scored.
    - repeat constructor; cbn; lia.
    - intros row n. apply sample_rows_near. }
  exists out. unfold recompute_all_scores. rewrite E.
  split; [reflexivity | ].
  intros ->. discriminate Hids.
Qed.

(** What a successful batch inserts: one aggregate for each place whose
    rows pass the evidence rule and none for any other place, never two
    for one place, in the order of the groups; the aggregate of the
    [j]-th such place is the one
    [compute_restaurant_scores] gives for all mentions of that place at
    reading [j] of the clock, and the batch reads the clock once per
    aggregate. *)
Theorem batch_output (rows : list Row.t) (c : Clock)
  (aggs : list Aggregate.t) :
  fst (recompute_all_scores rows c) = Ok aggs ->
  let chosen :=
    filter (fun g => accepted (snd g)) (group_by_place rows) in
  map Aggregate.place_id aggs = map fst chosen
  /\ NoDup (map Aggregate.place_id aggs)
  /\ (forall k,
        In k (map Aggregate.place_id aggs)
        <-> accepted (map mention_of_row (rows_of k rows)) = true)
  /\ (List.length aggs <= List.length (group_by_place rows))%nat
  /\ (forall j g, nth_error chosen j = Some g ->
        exists agg,
          nth_error aggs j = Some agg
          /\ fst (compute_restaurant_scores (fst g) (snd g) (later j c))
             = Ok (Some agg))
  /\ (forall k,
        snd (recompute_all_scores rows c) k = c (List.length aggs + k)%nat).
Proof.
  intros Hok chosen.
  destruct (batch_run rows c aggs Hok) as (Hclock & Hids & Hnth).
  pose proof (group_keys_nodup rows) as Hnd.
  pose proof (group_members rows) as Hin.
  fold chosen in Hids, Hnth.
  split; [exact Hids | ].
  split; [rewrite Hids; apply keys_filter_nodup, Hnd | ].
  split.
  { intros k. rewrite Hids. subst chosen. split.
    - intros Hk. apply in_map_iff in Hk.
      destruct Hk as ([k' ms] & E & Hg). cbn [fst] in E. subst k'.
      apply filter_In in Hg. destruct Hg as [Hg Hacc]. cbn [snd] in Hacc.
      apply Hin in Hg. destruct Hg as [_ <-]. exact Hacc.
    - intros Hacc. apply in_map_iff.
      exists (k, map mention_of_row (rows_of k rows)).
      split; [reflexivity | ]. apply filter_In.
      split; [ | exact Hacc]. apply Hin.
      split; [ | reflexivity].
      intros E. rewrite E in Hacc. discriminate Hacc. }
  split.
  { rewrite <- (length_map Aggregate.place_id), Hids, length_map.
    subst chosen. apply filter_length_le. }
  split; [exact Hnth | exact Hclock].
Qed.

Lemma batch_output_witness :
  exists aggs,
    fst (recompute_all_scores sample_rows (ticking (day 9))) = Ok aggs
    /\ map Aggregate.place_id aggs = ["place-1"].
Proof.
  destruct sample_rows_run as (aggs & H & _). exists aggs.
  split; [exact H | ].
  exact (proj1 (batch_output sample_rows (ticking (day 9)) aggs H)).
Defined.

(** Every aggregate of a successful batch belongs to a place with rows,
    counts exactly the rows of that place, adds up their upvote counts,
    passes the evidence rule and has a trending score no greater than its
    iconic score. *)
Theorem batch_invariants (rows : list Row.t) (c : Clock)
  (aggs : list Aggregate.t) (agg : Aggregate.t) :
  fst (recompute_all_scores rows c) = Ok aggs ->
  In agg aggs ->
  let mine := rows_of (Aggregate.place_id agg) rows in
  mine <> []
  /\ Aggregate.total_mentions agg = len mine
  /\ Aggregate.total_upvotes agg = sum (map Row.score mine)
  /\ (MIN_THREADS <= Aggregate.unique_threads agg
      \/ MIN_TOTAL_UPVOTES <= Aggregate.total_upvotes agg)
  /\ (Aggregate.trending_score agg <= Aggregate.iconic_score agg)%R.
Proof.
  intros Hok Hin mine.
  destruct (batch_run rows c aggs Hok) as (_ & Hids & Hnth).
  pose proof (group_members rows) as Hgrp.
  apply In_nth_error in Hin. destruct Hin as [j Hj].
  set (chosen := filter (fun g => accepted (snd g)) (group_by_place rows))
    in *.
  assert (Hlen : List.length aggs = List.length chosen).
  { rewrite <- (length_map Aggregate.place_id), Hids, length_map.
    reflexivity. }
  destruct (nth_error chosen j) as [[k ms] |] eqn:Hg.
  - destruct (Hnth j (k, ms) Hg) as (agg' & Hj' & Hcomp).
    rewrite Hj in Hj'. injection Hj' as <-. cbn [fst snd] in Hcomp.
    apply nth_error_In in Hg. apply filter_In in Hg.
    destruct Hg as [Hg Hacc]. cbn [snd] in Hacc.
    apply Hgrp in Hg. destruct Hg as [Hne Hms].
    destruct (compute_some_inv k ms (later j c) agg Hcomp)
      as (_ & Hsc & m & rest & Hcons & Hagg).
    assert (Hpid : Aggregate.place_id agg = k) by (rewrite Hagg; reflexivity).
    subst mine. rewrite Hpid.
    split; [intros E; rewrite E in Hms; cbn in Hms; congruence | ].
    split.
    { rewrite Hagg. cbn [Aggregate.total_mentions]. rewrite Hms.
      unfold len. rewrite length_map. reflexivity. }
    split.
    { rewrite Hagg. cbn [Aggregate.total_upvotes]. unfold totalUpvotes.
      rewrite Hms, map_map. reflexivity. }
    split.
    { rewrite Hagg.
      cbn [Aggregate.unique_threads Aggregate.total_upvotes].
      apply accept_true_iff. exact Hacc. }
    destruct (compute_present k ms (later j c) Hne Hacc Hsc)
      as (agg'' & E & Hle).
    rewrite E in Hcomp. cbn [fst] in Hcomp. injection Hcomp as ->.
    exact Hle.
  - apply nth_error_None in Hg.
    assert (Hlt : (j < List.length aggs)%nat)
      by (apply nth_error_Some; rewrite Hj; discriminate).
    lia.
Qed.

Lemma batch_invariants_witness :
  exists aggs agg,
    fst (recompute_all_scores sample_rows (ticking (day 9))) = Ok aggs
    /\ In agg aggs
    /\ Aggregate.total_mentions agg
       = len (rows_of (Aggregate.place_id agg) sample_rows).
Proof.
  destruct sample_rows_run as (aggs & H & Hne).
  destruct aggs as [| agg aggs]; [congruence | ].
  exists (agg :: aggs), agg.
  assert (Hin : In agg (agg :: aggs)) by (left; reflexivity).
  split; [exact H | split; [exact Hin | ]].
  exact (proj1 (proj2 (batch_invariants sample_rows (ticking (day 9))
                         (agg :: aggs) agg H Hin))).
Defined.

(** ** Order of the groups *)

Section GroupOrder.
Local Abbreviation step :=
  (fun (d : Groups) (row : Row.t) =>
     dict_append d (Row.place_id row) (mention_of_row row)).
Local Abbreviation absent_from := (fun ks k => negb (existsb (String.eqb k) ks)).

Lemma filter_twice {A} (f g : A -> bool) (l : list A) :
  filter f (filter g l) = filter (fun x => g x && f x) l.
Proof.
  induction l as [| x l IH]; cbn [filter]; [reflexivity | ].
  destruct (g x); cbn [filter andb]; [destruct (f x) | ]; rewrite IH;
    reflexivity.
Qed.

Lemma existsb_eqb_in (k : string) (ks : list string) :
  existsb (String.eqb k) ks = true <-> In k ks.
Proof.
  rewrite existsb_exists. split.
  - intros (x & Hx & E). apply String.eqb_eq in E. subst x. exact Hx.
  - intros H. exists k. split; [exact H | apply String.eqb_refl].
Qed.

Lemma fold_keys_order (rows : list Row.t) (d : Groups) :
  map fst (fold_left step rows d)
  = (map fst d
       ++ filter (absent_from (map fst d))
            (first_seen (map Row.place_id rows)))%list.
Proof.
  revert d. induction rows as [| r rows IH]; intros d.
  - cbn. rewrite app_nil_r. reflexivity.
  - cbn [fold_left map first_seen filter]. rewrite IH, keys_append.
    set (k := Row.place_id r). set (ks := map fst d).
    set (fs := first_seen (map Row.place_id rows)).
    destruct (in_dec string_dec k ks) as [Hin | Hnin].
    + assert (E : existsb (String.eqb k) ks = true)
        by (apply existsb_eqb_in; exact Hin).
      rewrite E. cbn [negb]. f_equal.
      rewrite filter_twice. apply filter_ext. intros x.
      destruct (String.eqb_spec x k) as [-> | _]; cbn [negb andb];
        [rewrite E | ]; reflexivity.
    + assert (E : existsb (String.eqb k) ks = false).
      { destruct (existsb (String.eqb k) ks) eqn:Ex; [ | reflexivity].
        apply existsb_eqb_in in Ex. contradiction. }
      rewrite E. cbn [negb]. rewrite <- app_assoc. cbn [app]. do 2 f_equal.
      rewrite filter_twice. apply filter_ext. intros x.
      rewrite existsb_app. cbn [existsb]. rewrite orb_false_r.
      rewrite negb_orb. apply andb_comm.
Qed.
End GroupOrder.

(** The groups stand in the order in which their places first occur in
    the rows, as the keys of a dict do. *)
Theorem group_by_place_order (rows : list Row.t) :
  map fst (group_by_place rows) = first_seen (map Row.place_id rows).
Proof.
  unfold group_by_place. rewrite fold_keys_order. cbn [map app].
  assert (H : forall l : list string,
            filter (fun k => negb (existsb (String.eqb k) [])) l = l).
  { induction l as [| x l IH]; [reflexivity | ].
    cbn. f_equal. exact IH. }
  apply H.
Qed.

(** ** The evidence rule under further mentions *)

Lemma len_set_app (l extra : list string) :
  len_set l <= len_set (l ++ extra).
Proof.
  unfold len_set. apply inj_le. apply NoDup_incl_length.
  - apply NoDup_nodup.
  - intros x Hx. apply nodup_In. apply nodup_In in Hx.
    apply in_or_app. left. exact Hx.
Qed.

Lemma sum_app_nonneg (l extra : list Z) :
  Forall (fun x => 0 <= x) extra -> sum l <= sum (l ++ extra).
Proof.
  intros H. induction l as [| y l IH]; cbn [app].
  - induction H as [| x extra Hx _ IH]; [reflexivity | ].
    rewrite sum_cons. unfold sum in IH at 1. cbn in IH. unfold sum at 1.
    cbn. lia.
  - rewrite !sum_cons. lia.
Qed.

(** Further mentions with non-negative upvote counts never turn an
    accepted group into a rejected one. *)
Theorem evidence_grows (ms extra : list Mention.t) :
  accepted ms = true ->
  Forall (fun m => 0 <= Mention.score m) extra ->
  accepted (ms ++ extra) = true.
Proof.
  intros Hacc Hextra. unfold accepted in *.
  apply accept_true_iff in Hacc. apply accept_true_iff.
  unfold uniqueThreadCount, totalUpvotes in *. rewrite !map_app.
  pose proof (len_set_app (map Mention.post_id ms)
                (map Mention.post_id extra)) as Hu.
  assert (Ht : sum (map Mention.score ms)
               <= sum (map Mention.score ms ++ map Mention.score extra)).
  { apply sum_app_nonneg. apply Forall_forall. intros x Hx.
    apply in_map_iff in Hx. destruct Hx as (m & <- & Hm).
    rewrite Forall_forall in Hextra. exact (Hextra m Hm). }
  lia.
Qed.

Lemma evidence_grows_witness :
  accepted (single_thread 10) = true
  /\ Forall (fun m => 0 <= Mention.score m) (single_thread 0)
  /\ accepted (single_thread 10 ++ single_thread 0) = true
  /\ accepted (single_thread 10 ++ single_thread (-1)) = false.
Proof.
  assert (Ha : accepted (single_thread 10) = true) by reflexivity.
  assert (He : Forall (fun m => 0 <= Mention.score m) (single_thread 0))
    by (repeat constructor; cbn; lia).
  split; [exact Ha | split; [exact He | split; [ | reflexivity]]].
  exact (evidence_grows (single_thread 10) (single_thread 0) Ha He).
Defined.

(** ** Permalinks of ids without a type prefix *)

(** An id without any underscore, hence without a type prefix, goes into
    the permalink unchanged; the comment part is left out when the comment
    id is [None] or empty. *)
Theorem permalink_plain_ids (m : Mention.t) :
  no_underscore (Mention.post_id m) = true ->
  (forall c, Mention.comment_id m = Some c -> no_underscore c = true) ->
  permalink_of m
  = ("https://reddit.com/r/" ++ Mention.subreddit m ++ "/comments/"
       ++ Mention.post_id m
       ++ match Mention.comment_id m with
          | Some (String a c) => "/_/" ++ String a c
          | _ => ""
          end)%string.
Proof.
  intros Hpost Hcomment. unfold permalink_of.
  change "t3_" with (marker "t" "3"). change "t1_" with (marker "t" "1").
  rewrite replace_plain by exact Hpost.
  destruct (Mention.comment_id m) as [[| a c] |]; cbn [truthy get_default];
    try reflexivity.
  rewrite replace_plain by (apply Hcomment; reflexivity). reflexivity.
Qed.

Lemma permalink_plain_ids_witness :
  no_underscore (Mention.post_id (mention_at "1abc9z" "k2x" 7 (day 0))) = true
  /\ permalink_of (mention_at "1abc9z" "k2x" 7 (day 0))
     = "https://reddit.com/r/FoodNYC/comments/1abc9z/_/k2x".
Proof.
  assert (Hp : no_underscore
                 (Mention.post_id (mention_at "1abc9z" "k2x" 7 (day 0)))
               = true) by reflexivity.
  split; [exact Hp | ].
  apply (permalink_plain_ids (mention_at "1abc9z" "k2x" 7 (day 0)) Hp).
  intros c Hc. injection Hc as <-. reflexivity.
Defined.
